(** * Fortune-100 dataset scripts: name normalisation, CIK resolution,
      financial-facts extraction and the daily merge

    A shallow embedding of [bootstrap_sec_data.py] and
    [daily_update_sec_data.py], and the properties of their specification.

    Modelling conventions.
    - A Python [str] is a list of characters, [list ascii]; a character is
      read as the code point 0..255.  The character tables below ([\w],
      [str.lower], [str.split] whitespace) are Python's tables restricted to
      that range.  [normalize_name] is also embedded on strings of any code
      points, [list N] (module [Unicode]), given Unicode's tables from 256
      on; the two embeddings agree below 256 ([normalize_name_points]).
    - A similarity score (a finite Python float) is the rational number it
      denotes, [Q]; the code only compares scores.
    - A [dict] whose iteration order matters (the registry) is an association
      list in iteration order; a [dict] that is only looked up and updated by
      key (the facts payload, a company's stored financials) is a [gmap].
    - A call that can raise returns an [outcome]: a value or the exception. *)

From Stdlib Require Import Ascii String QArith Lqa DecimalString DecimalPos DecimalN.
From stdpp Require Import base list option numbers strings gmap.

#[local] Close Scope Q_scope.
#[local] Close Scope Z_scope.
#[local] Open Scope nat_scope.
#[local] Open Scope list_scope.

Abbreviation str := (list ascii) (only parsing).

(** A Python string literal. *)
Definition lit (s : string) : str := list_ascii_of_string s.

(** ** Character tables (code points below 256) *)

Definition code (c : ascii) : nat := nat_of_ascii c.

Definition in_range (lo hi : nat) (c : ascii) : bool :=
  (lo <=? code c) && (code c <=? hi).

(** [\w] of a [str] pattern: alphanumeric in Unicode, or the underscore. *)
Definition is_word_char (c : ascii) : bool :=
  in_range 48 57 c || in_range 65 90 c || (code c =? 95) || in_range 97 122 c
  || (code c =? 170) || in_range 178 179 c || (code c =? 181)
  || in_range 185 186 c || in_range 188 190 c
  || in_range 192 214 c || in_range 216 246 c || in_range 248 255 c.

(** Whitespace of [str.split()] and [str.isspace()]. *)
Definition is_space_char (c : ascii) : bool :=
  in_range 9 13 c || in_range 28 32 c || (code c =? 133) || (code c =? 160).

(** [str.lower()], character by character. *)
Definition lower_char (c : ascii) : ascii :=
  if in_range 65 90 c || in_range 192 214 c || in_range 216 222 c
  then ascii_of_nat (code c + 32) else c.

Definition py_lower (s : str) : str := map lower_char s.

(** ** The [re] module, as far as [normalize_name] uses it *)

(** A literal pattern character against a subject character under [re.I]. *)
Definition char_match_ci (p c : ascii) : bool :=
  bool_decide (lower_char c = lower_char p).

(** Matching a literal; on success the last character consumed (or [prev]
    when the literal is empty) and the rest of the subject. *)
Fixpoint match_literal (l : str) (prev : option ascii) (s : str)
  : option (option ascii * str) :=
  match l with
  | [] => Some (prev, s)
  | p :: l' =>
      match s with
      | c :: s' => if char_match_ci p c then match_literal l' (Some c) s' else None
      | [] => None
      end
  end.

Definition is_word_opt (o : option ascii) : bool :=
  match o with Some c => is_word_char c | None => false end.

(** [\b] between the character before the position and the one after. *)
Definition at_boundary (prev next : option ascii) : bool :=
  xorb (is_word_opt prev) (is_word_opt next).

(** [(l1|l2|...)\b]: the alternatives in order; when the closing [\b] fails
    after an alternative the matcher backtracks into the next one.  The
    result is the length of the match. *)
Fixpoint match_alternatives (alts : list str) (prev : option ascii) (s : str)
  : option nat :=
  match alts with
  | [] => None
  | l :: alts' =>
      match match_literal l prev s with
      | Some (last, rest) =>
          if at_boundary last (head rest) then Some (length l)
          else match_alternatives alts' prev s
      | None => match_alternatives alts' prev s
      end
  end.

(** [\b(l1|l2|...)\b] at one position of the subject. *)
Definition match_here (alts : list str) (prev : option ascii) (s : str) : option nat :=
  if at_boundary prev (head s) then match_alternatives alts prev s else None.

(** [re.sub(r'\b(l1|l2|...)\b', '', s, flags=re.I)]: leftmost matches, left
    to right, without overlap.  [skip] counts the characters of the current
    match still to be dropped; [prev] is the subject character before [s]. *)
Fixpoint re_sub_words_from (alts : list str) (skip : nat) (prev : option ascii)
    (s : str) : str :=
  match s with
  | [] => []
  | c :: s' =>
      match skip with
      | S k => re_sub_words_from alts k (Some c) s'
      | O =>
          match match_here alts prev s with
          | Some (S k) => re_sub_words_from alts k (Some c) s'
          | _ => c :: re_sub_words_from alts 0 (Some c) s'
          end
      end
  end.

Definition re_sub_words (alts : list str) (s : str) : str :=
  re_sub_words_from alts 0 None s.

(** The character class [[a-z0-9 ]]. *)
Definition in_class_az09sp (c : ascii) : bool :=
  in_range 97 122 c || in_range 48 57 c || (code c =? 32).

(** [re.sub(r'[^a-z0-9 ]', '', s)]. *)
Definition re_sub_not_az09sp (s : str) : str := filter (fun c => in_class_az09sp c = true) s.

(** ** [str.split()] and [str.join] *)

Fixpoint split_from (tok : str) (s : str) : list str :=
  match s with
  | [] => match tok with [] => [] | _ => [tok] end
  | c :: s' =>
      if is_space_char c
      then match tok with [] => split_from [] s' | _ => tok :: split_from [] s' end
      else split_from (tok ++ [c]) s'
  end.

Definition py_split (s : str) : list str := split_from [] s.

Fixpoint py_join (sep : str) (l : list str) : str :=
  match l with
  | [] => []
  | [x] => x
  | x :: l' => x ++ sep ++ py_join sep l'
  end.

(** ** Builtins: [str(int)], [str.zfill], [in] on strings, [int(str)] *)

(** [str(n)] of a non-negative [int]. *)
Definition py_str (n : N) : str :=
  list_ascii_of_string (NilZero.string_of_uint (N.to_uint n)).

Definition is_sign (c : ascii) : bool :=
  bool_decide (c = "+"%char) || bool_decide (c = "-"%char).

(** [s.zfill(width)]: zeros go after a leading sign. *)
Definition zfill (width : nat) (s : str) : str :=
  let pad := repeat "0"%char (width - length s) in
  match s with
  | c :: s' => if is_sign c then c :: pad ++ s' else pad ++ s
  | [] => pad
  end.

Fixpoint starts_with (p s : str) : bool :=
  match p, s with
  | [], _ => true
  | a :: p', b :: s' => bool_decide (a = b) && starts_with p' s'
  | _ :: _, [] => false
  end.

(** [sub in s] for two strings. *)
Fixpoint py_in (sub s : str) : bool :=
  starts_with sub s ||
  match s with
  | [] => false
  | _ :: s' => py_in sub s'
  end.

Definition is_digit (c : ascii) : bool := in_range 48 57 c.

Definition digit_value (c : ascii) : Z := Z.of_nat (code c - 48).

(** The digits of an [int] literal: single underscores may separate digits. *)
Fixpoint int_digits (acc : Z) (after_digit : bool) (s : str) : option Z :=
  match s with
  | [] => if after_digit then Some acc else None
  | c :: s' =>
      if is_digit c then int_digits (10 * acc + digit_value c)%Z true s'
      else if bool_decide (c = "_"%char) && after_digit then int_digits acc false s'
      else None
  end.

Fixpoint drop_spaces (s : str) : str :=
  match s with
  | c :: s' => if is_space_char c then drop_spaces s' else s
  | [] => []
  end.

(** [s.rstrip()]. *)
Definition rstrip (s : str) : str := rev (drop_spaces (rev s)).

(** The whitespace [int()] skips around the literal: the ASCII whitespace
    9..13 and 32, and, of the code points from 127 on, those of
    [str.isspace()], 133 and 160.  The separators 28..31 are whitespace for
    [str.split()] but not here. *)
Definition is_int_space_char (c : ascii) : bool :=
  in_range 9 13 c || (code c =? 32) || (code c =? 133) || (code c =? 160).

Fixpoint drop_int_spaces (s : str) : str :=
  match s with
  | c :: s' => if is_int_space_char c then drop_int_spaces s' else s
  | [] => []
  end.

Definition int_strip (s : str) : str :=
  rev (drop_int_spaces (rev (drop_int_spaces s))).

(** [int(s)] in base 10; [None] is [ValueError]. *)
Definition py_int (s : str) : option Z :=
  match int_strip s with
  | c :: s' =>
      if bool_decide (c = "-"%char) then Z.opp <$> int_digits 0 false s'
      else if bool_decide (c = "+"%char) then int_digits 0 false s'
      else int_digits 0 false (c :: s')
  | [] => None
  end.

(** ** Exceptions *)

Inductive exn : Type :=
  | ValueError_CIK_not_found (best_score : Q)
  | ValueError_int
  | KeyError (key : str)
  | IndexError
  | TypeError_unpack_None.

Inductive outcome (A : Type) : Type :=
  | Returns (a : A)
  | Raises (e : exn).
Arguments Returns {A} a.
Arguments Raises {A} e.

Definition bind {A B : Type} (m : outcome A) (k : A -> outcome B) : outcome B :=
  match m with
  | Returns a => k a
  | Raises e => Raises e
  end.

Notation "'try' x <- m ; k" := (bind m (fun x => k))
  (at level 10, x name, m at level 100, k at level 200).

(** ** rapidfuzz: [process.extractOne] over a list of choices *)

(** [scorer(query, choice, score_cutoff=c)]: a score below the cut-off is
    reported as 0. *)
Definition with_cutoff (scorer : str -> str -> Q) (cutoff : Q) (query choice : str) : Q :=
  let s := scorer query choice in
  if Qle_bool cutoff s then s else 0%Q.

(** The loop of [extractOne] for a scorer whose worst score is 0 and whose
    optimal score is 100: a choice replaces the result when it reaches the
    cut-off and strictly beats the score held; the cut-off follows the best
    score; a score of 100 ends the loop. *)
Fixpoint extractOne_loop (scorer : str -> str -> Q) (query : str)
    (choices : list str) (idx : nat) (score_cutoff : Q)
    (result : option (str * Q * nat)) : option (str * Q * nat) :=
  match choices with
  | [] => result
  | choice :: rest =>
      let score := with_cutoff scorer score_cutoff query choice in
      let better :=
        Qle_bool score_cutoff score &&
        match result with
        | None => true
        | Some (_, held, _) => negb (Qle_bool score held)
        end in
      let result' := if better then Some (choice, score, idx) else result in
      let cutoff' := if better then score else score_cutoff in
      if Qeq_bool score 100 then result'
      else extractOne_loop scorer query rest (S idx) cutoff' result'
  end.

(** [process.extractOne(query, choices, scorer=scorer)]: [(choice, score,
    index)], or [None] for no choice at all. *)
Definition extractOne (scorer : str -> str -> Q) (query : str) (choices : list str)
  : option (str * Q * nat) :=
  extractOne_loop scorer query choices 0 0%Q None.

(** ** rapidfuzz: a model of [fuzz.token_sort_ratio]

    The resolver is verified for any scorer with values in [0, 100]; this
    model of the library's scorer instantiates it on concrete inputs. *)

Fixpoint str_leb (a b : str) : bool :=
  match a, b with
  | [], _ => true
  | _ :: _, [] => false
  | x :: a', y :: b' =>
      if code x <? code y then true
      else if code y <? code x then false
      else str_leb a' b'
  end.

Fixpoint insert_sorted (x : str) (l : list str) : list str :=
  match l with
  | [] => [x]
  | y :: l' => if str_leb x y then x :: l else y :: insert_sorted x l'
  end.

(** [sorted(tokens)]. *)
Definition py_sorted (l : list str) : list str := foldr insert_sorted [] l.

(** One row of the longest-common-subsequence table: [above] is the row of
    the previous character from column j+1 on, [diag] its column j, [left]
    the new row's column j. *)
Fixpoint lcs_row (x : ascii) (b : str) (above : list nat) (diag left : nat) : list nat :=
  match b, above with
  | y :: b', up :: above' =>
      let cur := if bool_decide (x = y) then S diag else Nat.max up left in
      cur :: lcs_row x b' above' up cur
  | _, _ => []
  end.

Definition lcs_table (a b : str) : list nat :=
  foldl (fun row x => 0 :: lcs_row x b (tail row) 0 0) (repeat 0 (S (length b))) a.

(** Length of a longest common subsequence. *)
Definition lcs (a b : str) : nat := List.last (lcs_table a b) 0.

(** [fuzz.ratio]: the normalised Indel similarity, scaled to 0..100. *)
Definition ratio (a b : str) : Q :=
  match (length a + length b)%nat with
  | O => 100%Q
  | S n => Qmake (200 * Z.of_nat (lcs a b))%Z (Pos.of_succ_nat n)
  end.

(** The whitespace of the scorer's tokeniser on a string of one-byte
    characters: 9..13 and 28..32; it does not split at 133 or 160. *)
Definition is_token_space_char (c : ascii) : bool :=
  in_range 9 13 c || in_range 28 32 c.

Fixpoint tokens_from (tok : str) (s : str) : list str :=
  match s with
  | [] => match tok with [] => [] | _ => [tok] end
  | c :: s' =>
      if is_token_space_char c
      then match tok with [] => tokens_from [] s' | _ => tok :: tokens_from [] s' end
      else tokens_from (tok ++ [c]) s'
  end.

(** The tokens of a string, sorted and joined with single spaces. *)
Definition sorted_tokens (s : str) : str :=
  py_join (lit " ") (py_sorted (tokens_from [] s)).

Definition token_sort_ratio (a b : str) : Q :=
  ratio (sorted_tokens a) (sorted_tokens b).

(** ** Data *)

(** An entry of the SEC's [company_tickers.json]. *)
Record entry : Type := { cik_str : N; ticker : str; title : str }.

(** The registry, [dict] of key to entry, in iteration order. *)
Abbreviation registry := (list (str * entry)) (only parsing).

Fixpoint dict_get {V : Type} (d : list (str * V)) (k : str) : option V :=
  match d with
  | [] => None
  | (k', v) :: d' => if bool_decide (k' = k) then Some v else dict_get d' k
  end.

(** An item of a concept's unit list in the company-facts payload. *)
Record fact_item : Type := { item_end : str; item_val : Z }.

(** A concept of the payload; only ["units"] is read. *)
Record concept : Type := { units : option (gmap (list ascii) (list fact_item)) }.

(** A stored observation, [{"year": y, "val": v}]. *)
Record observation : Type := { year : Z; val : Z }.

#[global] Instance observation_eq_dec : EqDecision observation.
Proof. solve_decision. Defined.

(** [facts.get(name, {}).get("units", {}).get("USD", [])]. *)
Definition usd_items (facts : gmap (list ascii) concept) (name : str) : list fact_item :=
  match facts !! name with
  | None => []
  | Some c =>
      match units c with
      | None => []
      | Some u => default [] (u !! lit "USD")
      end
  end.

(** [int(i["end"][:4])]. *)
Definition end_year (i : fact_item) : outcome Z :=
  match py_int (take 4 (item_end i)) with
  | Some y => Returns y
  | None => Raises ValueError_int
  end.

(** The six metrics and the us-gaap concept each is read from. *)
Definition metric_concepts : list (str * str) :=
  [ (lit "Revenue", lit "Revenues");
    (lit "NetIncome", lit "NetIncomeLoss");
    (lit "OperatingCashFlow", lit "NetCashProvidedByUsedInOperatingActivities");
    (lit "Assets", lit "Assets");
    (lit "Liabilities", lit "Liabilities");
    (lit "Equity", lit "StockholdersEquity") ].

(** A dict display [{k1: f(c1), k2: f(c2), ...}], evaluated left to right. *)
Fixpoint build_dict {V : Type} (f : str -> outcome V) (l : list (str * str))
  : outcome (list (str * V)) :=
  match l with
  | [] => Returns []
  | (k, c) :: l' =>
      try v <- f c ;
      try d <- build_dict f l' ;
      Returns ((k, v) :: d)
  end.

(** * bootstrap_sec_data.py *)
Module Bootstrap.

Definition suffix_tokens : list str :=
  map lit ["incorporated"; "inc"; "corp"; "corporation"; "llc"; "ltd"; "plc";
           "group"; "company"]%string.

Definition normalize_name (name : str) : str :=
  let name := re_sub_words suffix_tokens name in
  let name := re_sub_not_az09sp (py_lower name) in
  py_join (lit " ") (py_split name).

Section Resolver.
(** [fuzz.token_sort_ratio] *)
Variable scorer : str -> str -> Q.

(** [get_cik]: [key] is the third component of the result of [extractOne],
    the index of the best choice in the list of normalized titles. *)
Definition get_cik (company_name : str) (mapping : registry) : outcome str :=
  let target := normalize_name company_name in
  let choices := map (fun kv => (normalize_name (title kv.2), kv.1)) mapping in
  match extractOne scorer target (map fst choices) with
  | None => Raises TypeError_unpack_None
  | Some (best, score, key) =>
      if Qle_bool 85 score then
        match dict_get mapping (py_str (N.of_nat key)) with
        | Some v => Returns (zfill 10 (py_str (cik_str v)))
        | None => Raises (KeyError (py_str (N.of_nat key)))
        end
      else
        match find (fun v => py_in target (normalize_name (title v))) (map snd mapping) with
        | Some v => Returns (zfill 10 (py_str (cik_str v)))
        | None => Raises (ValueError_CIK_not_found score)
        end
  end.
End Resolver.

(** The list comprehension of [pick]: the items from [cutoff] on. *)
Fixpoint pick_items (cutoff : Z) (items : list fact_item) : outcome (list observation) :=
  match items with
  | [] => Returns []
  | i :: items' =>
      try y <- end_year i ;
      if (cutoff <=? y)%Z then
        try y' <- end_year i ;
        try rest <- pick_items cutoff items' ;
        Returns ({| year := y'; val := item_val i |} :: rest)
      else pick_items cutoff items'
  end.

(** [extract_facts], from the ["us-gaap"] facts of the payload fetched for
    the CIK; [today_year] is [datetime.date.today().year]. *)
Definition extract_facts (today_year : Z) (facts : gmap (list ascii) concept)
  : outcome (list (str * list observation)) :=
  let cutoff := (today_year - 5)%Z in
  let pick name := pick_items cutoff (usd_items facts name) in
  build_dict pick metric_concepts.

(** The value [main] stores for a company,
    [{"cik": cik, "financials": {...}}]. *)
Record company_data : Type :=
  { data_cik : list ascii; data_financials : list (list ascii * list observation) }.

Section Main.
(** [fuzz.token_sort_ratio]; [datetime.date.today().year], constant over the
    run; and the request of [extract_facts]: the ["us-gaap"] facts of the
    payload of a CIK, [None] when the request or the payload raises. *)
Variable scorer : str -> str -> Q.
Variable today_year : Z.
Variable companyfacts : str -> option (gmap (list ascii) concept).

(** The body of the loop of [main] for the company [name]: any exception
    skips the company. *)
Definition process_company (mapping : registry)
    (all_data : gmap (list ascii) company_data) (name : str)
  : gmap (list ascii) company_data :=
  match get_cik scorer name mapping with
  | Raises _ => all_data
  | Returns cik =>
      match companyfacts cik with
      | None => all_data
      | Some facts =>
          match extract_facts today_year facts with
          | Raises _ => all_data
          | Returns financials =>
              <[name := {| data_cik := cik; data_financials := financials |}]> all_data
          end
      end
  end.

(** [main], from the names of the companies file and the registry
    downloaded by [load_ticker_map]: the value of [all_data] written out. *)
Definition main (companies : list str) (mapping : registry)
  : gmap (list ascii) company_data :=
  foldl (process_company mapping) ∅ companies.
End Main.

End Bootstrap.

(** * daily_update_sec_data.py *)
Module DailyUpdate.

Section Resolver.
(** [fuzz.token_sort_ratio] *)
Variable scorer : str -> str -> Q.

(** [get_cik], from the registry it downloads: a title equal to the name up
    to case first, then the fuzzy match on the raw titles, the entry being
    found again by its title, [[v for v in ... if v["title"] == best][0]]. *)
Definition get_cik (ticker_or_name : str) (mapping : registry) : outcome str :=
  match find (fun v => bool_decide (py_lower (title v) = py_lower ticker_or_name))
             (map snd mapping) with
  | Some v => Returns (zfill 10 (py_str (cik_str v)))
  | None =>
      let titles := map (fun v => title v) (map snd mapping) in
      match extractOne scorer ticker_or_name titles with
      | None => Raises TypeError_unpack_None
      | Some (best, score, idx) =>
          if Qle_bool 85 score then
            match List.filter (fun v => bool_decide (title v = best)) (map snd mapping) with
            | match_ :: _ => Returns (zfill 10 (py_str (cik_str match_)))
            | [] => Raises IndexError
            end
          else Raises (ValueError_CIK_not_found score)
      end
  end.
End Resolver.

(** [d[k] = v] on a dict in insertion order. *)
Fixpoint dict_set {V : Type} (d : list (Z * V)) (k : Z) (v : V) : list (Z * V) :=
  match d with
  | [] => [(k, v)]
  | (k', v') :: d' => if bool_decide (k' = k) then (k, v) :: d' else (k', v') :: dict_set d' k v
  end.

(** The dict comprehension of [pick]: year to value, a later item of a year
    replacing the value of an earlier one. *)
Fixpoint pick_items_from (acc : list (Z * Z)) (items : list fact_item)
  : outcome (list (Z * Z)) :=
  match items with
  | [] => Returns acc
  | i :: items' =>
      try y <- end_year i ;
      pick_items_from (dict_set acc y (item_val i)) items'
  end.

(** [latest_years], from the ["us-gaap"] facts of the payload. *)
Definition latest_years (facts : gmap (list ascii) concept)
  : outcome (list (str * list (Z * Z))) :=
  let pick name := pick_items_from [] (usd_items facts name) in
  build_dict pick metric_concepts.

(** The inner loop of [main] for one metric: [known_years] is taken before
    the loop; [setdefault(metric, []).append(...)] for each new year. *)
Definition merge_metric (financials : gmap (list ascii) (list observation))
    (metric : str) (vals : list (Z * Z)) : gmap (list ascii) (list observation) :=
  let known_years : gset Z :=
    list_to_set (map year (default [] (financials !! metric))) in
  foldl (fun fin yv =>
           if decide (yv.1 ∈ known_years) then fin
           else <[metric := default [] (fin !! metric) ++ [{| year := yv.1; val := yv.2 |}]]> fin)
        financials vals.

(** [for metric, vals in updated.items(): ...] on [info["financials"]]. *)
Definition merge_updated (financials : gmap (list ascii) (list observation))
    (updated : list (str * list (Z * Z))) : gmap (list ascii) (list observation) :=
  foldl (fun fin mv => merge_metric fin mv.1 mv.2) financials updated.

(** A value of the data file: [info["cik"]], when present, and
    [info["financials"]]. *)
Record company_info : Type :=
  { info_cik : option (list ascii);
    info_financials : gmap (list ascii) (list observation) }.

Section Main.
(** [fuzz.token_sort_ratio]; the registry [get_cik] downloads, [None] when
    the download raises; and the request of [latest_years]: the ["us-gaap"]
    facts of the payload of a CIK ([{}] when the payload has none), [None]
    when the request raises. *)
Variable scorer : str -> str -> Q.
Variable tickers : option (list (list ascii * entry)).
Variable companyfacts : str -> option (gmap (list ascii) concept).

(** [cik = info.get("cik")]; [if not cik:] look it up and store it.  [None]
    when the look-up raises. *)
Definition ensure_cik (name : str) (info : company_info)
  : option (str * company_info) :=
  match info_cik info with
  | Some (c :: cik) => Some (c :: cik, info)
  | _ =>
      match tickers with
      | None => None
      | Some mapping =>
          match get_cik scorer name mapping with
          | Returns cik =>
              Some (cik, {| info_cik := Some cik;
                            info_financials := info_financials info |})
          | Raises _ => None
          end
      end
  end.

(** The body of the loop of [main] for one company: what [info] is after
    the [try] statement, whether it completed or raised. *)
Definition update_info (name : str) (info : company_info) : company_info :=
  match ensure_cik name info with
  | None => info
  | Some (cik, info1) =>
      match companyfacts cik with
      | None => info1
      | Some facts =>
          match latest_years facts with
          | Raises _ => info1
          | Returns updated =>
              {| info_cik := info_cik info1;
                 info_financials := merge_updated (info_financials info1) updated |}
          end
      end
  end.

(** [main]: the data file after the run, from the data file read. *)
Definition main (data : list (str * company_info)) : list (str * company_info) :=
  map (fun ni => (ni.1, update_info ni.1 ni.2)) data.
End Main.

End DailyUpdate.

(** * The predicates of the statements, and the pipeline form of
      [normalize_name] below 256 that the proofs go through *)
Module Reference.

(** A whole word is a maximal run of word characters; it is a suffix token
    when its lowercase form is one of the nine. *)
Definition is_suffix_token (w : str) : bool :=
  bool_decide (py_lower w ∈ Bootstrap.suffix_tokens).

Definition keep_word (w : str) : str := if is_suffix_token w then [] else w.

(** Step (a): drop the whole words that are suffix tokens.  [word] is the
    word read so far. *)
Fixpoint remove_suffix_words_from (word : str) (s : str) : str :=
  match s with
  | [] => keep_word word
  | c :: s' =>
      if is_word_char c then remove_suffix_words_from (word ++ [c]) s'
      else keep_word word ++ c :: remove_suffix_words_from [] s'
  end.

Definition remove_suffix_words (s : str) : str := remove_suffix_words_from [] s.

(** Step (b). *)
Definition lowercase (s : str) : str := map lower_char s.

(** Step (c): keep lowercase ASCII letters, digits and the space. *)
Definition is_kept (c : ascii) : bool :=
  bool_decide (c ∈ lit "abcdefghijklmnopqrstuvwxyz0123456789 ").

Definition strip_other (s : str) : str := List.filter is_kept s.

(** Step (d): every run of whitespace becomes one space, then the ends are
    trimmed.  [in_run] tells that the character before was whitespace. *)
Fixpoint collapse_whitespace (in_run : bool) (s : str) : str :=
  match s with
  | [] => []
  | c :: s' =>
      if is_space_char c
      then if in_run then collapse_whitespace true s'
           else " "%char :: collapse_whitespace true s'
      else c :: collapse_whitespace false s'
  end.

Definition trim (s : str) : str := rev (drop_spaces (rev (drop_spaces s))).

(** The four steps, in order. *)
Definition normalize (s : str) : str :=
  trim (collapse_whitespace false (strip_other (lowercase (remove_suffix_words s)))).

(** The maximal run of word characters at the head of a string, and what
    follows it. *)
Fixpoint word_prefix (s : str) : str :=
  match s with
  | c :: s' => if is_word_char c then c :: word_prefix s' else []
  | [] => []
  end.

Fixpoint word_rest (s : str) : str :=
  match s with
  | c :: s' => if is_word_char c then word_rest s' else s
  | [] => []
  end.

(** The character before the position reached after reading [w]. *)
Definition last_opt (prev : option ascii) (w : str) : option ascii :=
  match last w with
  | Some c => Some c
  | None => prev
  end.

(** A character of a word of a normalized string: [[a-z0-9]]. *)
Definition token_char (c : ascii) : bool :=
  in_class_az09sp c && negb (is_space_char c).

Definition is_token (t : str) : bool :=
  negb (bool_decide (t = [])) && forallb token_char t.

Definition nonempty (t : str) : bool := negb (bool_decide (t = [])).

(** The words of [normalize_name s]. *)
Definition name_tokens (s : str) : list str :=
  py_split (re_sub_not_az09sp (py_lower (re_sub_words Bootstrap.suffix_tokens s))).

(** The scan of the suffix pattern over a subject. *)
Abbreviation scan := (re_sub_words_from Bootstrap.suffix_tokens).

(** The length of the join of [l] with one space, plus one. *)
Definition joined_size (l : list str) : nat :=
  list_sum (map (fun t => S (length t)) l).

(** The words of a normalized string. *)
Definition has_suffix_word (s : str) : bool :=
  existsb is_suffix_token (py_split s).

(** [sub] occurs in [s]. *)
Definition is_substring (sub s : str) : Prop := exists a b, s = a ++ sub ++ b.

(** [s] is the maximum of [scores], and [i] the first place it is taken. *)
Definition first_max (scores : list Q) (i : nat) (s : Q) : Prop :=
  scores !! i = Some s /\
  (forall k t, scores !! k = Some t -> (t <= s)%Q) /\
  (forall k t, k < i -> scores !! k = Some t -> (t < s)%Q).

(** The best choice so far, scanning with the true scores: a choice
    replaces the held one when it scores strictly more. *)
Fixpoint best_from (scorer : str -> str -> Q) (query : str) (choices : list str)
    (idx : nat) (held : option (str * Q * nat)) : option (str * Q * nat) :=
  match choices with
  | [] => held
  | c :: rest =>
      let s := scorer query c in
      match held with
      | Some (_, h, _) =>
          if Qle_bool s h then best_from scorer query rest (S idx) held
          else best_from scorer query rest (S idx) (Some (c, s, idx))
      | None => best_from scorer query rest (S idx) (Some (c, s, idx))
      end
  end.

(** The state of the loop of [extractOne]: nothing held and the initial
    cut-off, or a held choice whose true score is the cut-off. *)
Definition loop_state (scorer : str -> str -> Q) (query : str) (cutoff : Q)
    (held : option (str * Q * nat)) : Prop :=
  match held with
  | None => cutoff = 0%Q
  | Some (c, h, _) => cutoff = h /\ h = scorer query c
  end.

(** The layout of [company_tickers.json]: the key of the i-th entry is
    [str(i)]. *)
Definition index_keyed (mapping : registry) : Prop :=
  map fst mapping = map (fun i => py_str (N.of_nat i)) (seq 0 (length mapping)).

(** The scores of the fuzzy-ranking step of the bootstrap resolver, in
    registry order. *)
Definition registry_scores (scorer : str -> str -> Q) (company_name : str)
    (mapping : registry) : list Q :=
  map (fun kv => scorer (Bootstrap.normalize_name company_name)
                        (Bootstrap.normalize_name (title kv.2))) mapping.

(** Two resolutions agree: the same identifier, or two failures. *)
Definition same_resolution (a b : outcome (list ascii)) : Prop :=
  match a, b with
  | Returns x, Returns y => x = y
  | Raises _, Raises _ => True
  | _, _ => False
  end.

(** The observations the merge is to append to a metric: the fetched
    [(year, value)] pairs whose year is not among the stored years, in the
    order fetched. *)
Definition new_observations (stored : list observation) (fetched : list (Z * Z))
  : list observation :=
  map (fun yv => {| year := yv.1; val := yv.2 |})
      (List.filter (fun yv => negb (bool_decide (yv.1 ∈ map year stored))) fetched).

(** The names of the six metrics. *)
Definition metric_names : list str :=
  map lit ["Revenue"; "NetIncome"; "OperatingCashFlow"; "Assets"; "Liabilities";
           "Equity"]%string.

(** The year of an item whose date parses. *)
Definition item_year (i : fact_item) : Z :=
  default 0%Z (py_int (take 4 (item_end i))).

(** [int(i["end"][:4])] does not raise. *)
Definition year_parses (i : fact_item) : Prop :=
  is_Some (py_int (take 4 (item_end i))).

(** The observations of the items from [cutoff] on, in the order of the
    payload. *)
Definition window_observations (cutoff : Z) (items : list fact_item)
  : list observation :=
  map (fun i => {| year := item_year i; val := item_val i |})
      (List.filter (fun i => (cutoff <=? item_year i)%Z) items).

(** The value of the last item of the year [y]. *)
Definition last_value (items : list fact_item) (y : Z) : option Z :=
  foldl (fun acc i => if bool_decide (item_year i = y) then Some (item_val i) else acc)
        None items.

(** What the loop of the bootstrap [main] stores for a name, if anything. *)
Definition company_result (scorer : str -> str -> Q) (today_year : Z)
    (companyfacts : str -> option (gmap (list ascii) concept))
    (mapping : registry) (name : str) : option Bootstrap.company_data :=
  match Bootstrap.get_cik scorer name mapping with
  | Raises _ => None
  | Returns cik =>
      match companyfacts cik with
      | None => None
      | Some facts =>
          match Bootstrap.extract_facts today_year facts with
          | Raises _ => None
          | Returns financials =>
              Some {| Bootstrap.data_cik := cik; Bootstrap.data_financials := financials |}
          end
      end
  end.

(** The identifier read back as a number. *)
Definition identifier_value (x : str) : option N :=
  N.of_uint <$> NilEmpty.uint_of_string (string_of_list_ascii x).

End Reference.

(** * [normalize_name] on strings of any code points

    A Python [str] is a sequence of Unicode code points, [list N].  Below
    256 the tables are those of the beginning of the file; from 256 on
    [\w], [str.isspace()] and [str.lower()] are read from Unicode's tables,
    which the definitions take as [tables]. *)
Module Unicode.

(** The code point of a character below 256. *)
Definition point (c : ascii) : N := N_of_ascii c.

(** Unicode's tables from code point 256 on: [\w] of a [str] pattern
    (the alphanumeric characters), [str.isspace()], and the lowercase form
    [str.lower()] gives the character. *)
Record tables : Type :=
  { word_above : N -> bool;
    space_above : N -> bool;
    lower_above : N -> list N }.

(** A literal pattern character that is an ASCII letter against a subject
    character under [re.I]: from 256 on, [re.I] pairs U+0130 and U+0131
    with i, U+017F with s, and U+212A with k, and no other character with
    an ASCII letter. *)
Definition match_ci (p : ascii) (c : N) : bool :=
  if (c <? 256)%N then char_match_ci p (ascii_of_N c)
  else (bool_decide (lower_char p = "i"%char) && ((c =? 304) || (c =? 305))%N)
    || (bool_decide (lower_char p = "s"%char) && (c =? 383)%N)
    || (bool_decide (lower_char p = "k"%char) && (c =? 8490)%N).

Fixpoint match_literal (l : str) (prev : option N) (s : list N)
  : option (option N * list N) :=
  match l with
  | [] => Some (prev, s)
  | p :: l' =>
      match s with
      | c :: s' => if match_ci p c then match_literal l' (Some c) s' else None
      | [] => None
      end
  end.

(** The character class [[a-z0-9 ]]. *)
Definition in_class_az09sp (c : N) : bool :=
  ((97 <=? c) && (c <=? 122) || (48 <=? c) && (c <=? 57) || (c =? 32))%N.

(** [re.sub(r'[^a-z0-9 ]', '', s)]. *)
Definition re_sub_not_az09sp (s : list N) : list N := List.filter in_class_az09sp s.

Fixpoint py_join (sep : list N) (l : list (list N)) : list N :=
  match l with
  | [] => []
  | [x] => x
  | x :: l' => x ++ sep ++ py_join sep l'
  end.

(** The character before the position reached after reading [w]. *)
Definition last_opt (prev : option N) (w : list N) : option N :=
  match last w with
  | Some c => Some c
  | None => prev
  end.

Section Normalize.
Variable T : tables.

Definition is_word (c : N) : bool :=
  if (c <? 256)%N then is_word_char (ascii_of_N c) else word_above T c.

Definition is_space (c : N) : bool :=
  if (c <? 256)%N then is_space_char (ascii_of_N c) else space_above T c.

(** [str.lower()] of one character.  (The lowercase of U+03A3 depends on
    its place in the word; both forms are from 256 on, and
    [normalize_name] deletes either.) *)
Definition lower (c : N) : list N :=
  if (c <? 256)%N then [point (lower_char (ascii_of_N c))] else lower_above T c.

Definition py_lower (s : list N) : list N := flat_map lower s.

Definition is_word_opt (o : option N) : bool :=
  match o with Some c => is_word c | None => false end.

Definition at_boundary (prev next : option N) : bool :=
  xorb (is_word_opt prev) (is_word_opt next).

Fixpoint match_alternatives (alts : list str) (prev : option N) (s : list N)
  : option nat :=
  match alts with
  | [] => None
  | l :: alts' =>
      match match_literal l prev s with
      | Some (last, rest) =>
          if at_boundary last (head rest) then Some (length l)
          else match_alternatives alts' prev s
      | None => match_alternatives alts' prev s
      end
  end.

Definition match_here (alts : list str) (prev : option N) (s : list N) : option nat :=
  if at_boundary prev (head s) then match_alternatives alts prev s else None.

Fixpoint re_sub_words_from (alts : list str) (skip : nat) (prev : option N)
    (s : list N) : list N :=
  match s with
  | [] => []
  | c :: s' =>
      match skip with
      | S k => re_sub_words_from alts k (Some c) s'
      | O =>
          match match_here alts prev s with
          | Some (S k) => re_sub_words_from alts k (Some c) s'
          | _ => c :: re_sub_words_from alts 0 (Some c) s'
          end
      end
  end.

Definition re_sub_words (alts : list str) (s : list N) : list N :=
  re_sub_words_from alts 0 None s.

Fixpoint split_from (tok : list N) (s : list N) : list (list N) :=
  match s with
  | [] => match tok with [] => [] | _ => [tok] end
  | c :: s' =>
      if is_space c
      then match tok with [] => split_from [] s' | _ => tok :: split_from [] s' end
      else split_from (tok ++ [c]) s'
  end.

Definition py_split (s : list N) : list (list N) := split_from [] s.

(** [normalize_name], on any string. *)
Definition normalize_name (name : list N) : list N :=
  let name := re_sub_words Bootstrap.suffix_tokens name in
  let name := re_sub_not_az09sp (py_lower name) in
  py_join [32%N] (py_split name).

(** The maximal run of word characters at the head of a string, and what
    follows it. *)
Fixpoint word_prefix (s : list N) : list N :=
  match s with
  | c :: s' => if is_word c then c :: word_prefix s' else []
  | [] => []
  end.

Fixpoint word_rest (s : list N) : list N :=
  match s with
  | c :: s' => if is_word c then word_rest s' else s
  | [] => []
  end.

Fixpoint drop_spaces (s : list N) : list N :=
  match s with
  | c :: s' => if is_space c then drop_spaces s' else s
  | [] => []
  end.

Definition rstrip (s : list N) : list N := rev (drop_spaces (rev s)).
End Normalize.

(** A letter of the nine tokens. *)
Definition token_letter (p : ascii) : bool :=
  bool_decide (p ∈ lit "acdegilmnoprtuy").

(** Neither U+0130 (capital I with a dot) nor U+0131 (small i without). *)
Definition undotted (c : N) : Prop := c <> 304%N /\ c <> 305%N.

End Unicode.

(** * The four steps of the specification, on any string

    Written from the words of the specification: its own list of the nine
    tokens and its own character tables below 256. *)
Module Pipeline.

(** The nine corporate-suffix tokens. *)
Definition tokens : list (list N) :=
  map (fun t => map N_of_ascii (list_ascii_of_string t))
      ["incorporated"; "inc"; "corp"; "corporation"; "llc"; "ltd"; "plc";
       "group"; "company"]%string.

(** [c] is the letter [p] of a token, in lower case or in upper case. *)
Definition same_letter (p c : N) : bool := ((c =? p) || (c + 32 =? p))%N.

(** [w] is the token [t], without regard to the case of its letters. *)
Fixpoint same_word (t w : list N) : bool :=
  match t, w with
  | [], [] => true
  | p :: t', c :: w' => same_letter p c && same_word t' w'
  | _, _ => false
  end.

Definition is_suffix_word (w : list N) : bool :=
  existsb (fun t => same_word t w) tokens.

Definition keep_word (w : list N) : list N := if is_suffix_word w then [] else w.

Definition between (lo hi c : N) : bool := ((lo <=? c) && (c <=? hi))%N.

(** Step (c): a lowercase ASCII letter, a digit or the space. *)
Definition is_kept (c : N) : bool :=
  between 97 122 c || between 48 57 c || (c =? 32)%N.

Definition strip_other (s : list N) : list N := List.filter is_kept s.

Section Steps.
Variable T : Unicode.tables.

(** A character of a word: a letter, a digit (or another numeric
    character) or the underscore. *)
Definition word_character (c : N) : bool :=
  if (c <? 256)%N then
    between 48 57 c || between 65 90 c || (c =? 95)%N || between 97 122 c
    || (c =? 170)%N || between 178 179 c || (c =? 181)%N || between 185 186 c
    || between 188 190 c || between 192 214 c || between 216 246 c
    || between 248 255 c
  else Unicode.word_above T c.

(** Step (a): drop the whole words, the maximal runs of word characters,
    that are suffix tokens.  [word] is the word read so far. *)
Fixpoint remove_words_from (word : list N) (s : list N) : list N :=
  match s with
  | [] => keep_word word
  | c :: s' =>
      if word_character c then remove_words_from (word ++ [c]) s'
      else keep_word word ++ c :: remove_words_from [] s'
  end.

Definition remove_words (s : list N) : list N := remove_words_from [] s.

(** Step (b): the capitals A-Z and those of 192..222 are 32 below their
    lowercase form. *)
Definition lowercase_of (c : N) : list N :=
  if (c <? 256)%N then
    if between 65 90 c || between 192 214 c || between 216 222 c
    then [(c + 32)%N] else [c]
  else Unicode.lower_above T c.

Definition lowercase (s : list N) : list N := flat_map lowercase_of s.

Definition whitespace (c : N) : bool :=
  if (c <? 256)%N then
    between 9 13 c || between 28 32 c || (c =? 133)%N || (c =? 160)%N
  else Unicode.space_above T c.

(** Step (d): every run of whitespace becomes one space, then the ends are
    trimmed.  [in_run] tells that the character before was whitespace. *)
Fixpoint collapse_whitespace (in_run : bool) (s : list N) : list N :=
  match s with
  | [] => []
  | c :: s' =>
      if whitespace c
      then if in_run then collapse_whitespace true s'
           else 32%N :: collapse_whitespace true s'
      else c :: collapse_whitespace false s'
  end.

Fixpoint drop_whitespace (s : list N) : list N :=
  match s with
  | c :: s' => if whitespace c then drop_whitespace s' else s
  | [] => []
  end.

Definition trim (s : list N) : list N :=
  rev (drop_whitespace (rev (drop_whitespace s))).

(** The four steps, in order. *)
Definition normalize (s : list N) : list N :=
  trim (collapse_whitespace false (strip_other (lowercase (remove_words s)))).
End Steps.

End Pipeline.

(** * Sample data *)

(** A payload whose revenues have an observation of 2001 and one of 2024. *)
Definition sample_facts : gmap (list ascii) concept :=
  {[ lit "Revenues" :=
       {| units := Some {[ lit "USD" :=
            [ {| item_end := lit "2001-12-31"; item_val := 5 |};
              {| item_end := lit "2024-12-31"; item_val := 7 |} ] ]} |} ]}.

(** A payload with a date that is no date. *)
Definition broken_facts : gmap (list ascii) concept :=
  {[ lit "Assets" :=
       {| units := Some {[ lit "USD" :=
            [ {| item_end := lit "n/a"; item_val := 1 |} ] ]} |} ]}.

(** A stored record that has the revenue of 2024. *)
Definition sample_financials : gmap (list ascii) (list observation) :=
  {[ lit "Revenue" := [ {| year := 2024; val := 6 |} ] ]}.

Definition company (key : string) (cik : N) (name : string) : str * entry :=
  (lit key, {| cik_str := cik; ticker := []; title := lit name |}).

(** Two entries in the layout of [company_tickers.json]. *)
Definition sec_registry : registry :=
  [company "0" 320193 "Apple Inc."; company "1" 789019 "Microsoft Corporation"].

(** The registry of the specification's scenarios, keyed by identifier. *)
Definition cik_keyed_registry : registry :=
  [company "0000320193" 320193 "Apple Inc.";
   company "0000789019" 789019 "Microsoft Corporation"].

(** A registry whose titles are already normalized. *)
Definition plain_registry : registry :=
  [company "0" 320193 "apple"; company "1" 789019 "microsoft"].

(** The same two companies under the keys "1" and "2". *)
Definition shifted_registry : registry :=
  [company "1" 320193 "Apple Inc."; company "2" 789019 "Microsoft Corporation"].

(** What [extract_facts] returns for [sample_facts] in 2025, and what
    [latest_years] returns for it. *)
Definition sample_extracted : list (str * list observation) :=
  [ (lit "Revenue", [ {| year := 2024; val := 7 |} ]);
    (lit "NetIncome", []); (lit "OperatingCashFlow", []);
    (lit "Assets", []); (lit "Liabilities", []); (lit "Equity", []) ].

Definition sample_updated : list (str * list (Z * Z)) :=
  [ (lit "Revenue", [ (2001, 5); (2024, 7) ]%Z);
    (lit "NetIncome", []); (lit "OperatingCashFlow", []);
    (lit "Assets", []); (lit "Liabilities", []); (lit "Equity", []) ].

(** Unicode's tables at the code points from 256 on of the examples:
    U+0130, U+0131, U+0391 and U+03B1 are letters; the lowercase form of
    U+0130 is i followed by U+0307, that of U+0391 is U+03B1, and U+0131
    and U+03B1 are lowercase. *)
Definition sample_tables : Unicode.tables :=
  {| Unicode.word_above := fun c => bool_decide (c ∈ [304; 305; 913; 945]%N);
     Unicode.space_above := fun _ => false;
     Unicode.lower_above := fun c =>
       if (c =? 304)%N then [105; 775]%N
       else if (c =? 913)%N then [945]%N else [c] |}.

(** "İnc": U+0130, n, c; and a name with a Greek capital, "Αlpha Inc". *)
Definition dotted_inc : list N := [304; 110; 99]%N.

Definition alpha_inc : list N := [913; 108; 112; 104; 97; 32; 73; 110; 99]%N.

(** * Characters *)

Ltac each_char c :=
  destruct c as [[] [] [] [] [] [] [] []]; vm_compute; try done.

Lemma lower_letter_is_word c :
  in_range 97 122 (lower_char c) = true -> is_word_char c = true.
Proof. each_char c. Qed.

Lemma lower_char_letter c : in_range 97 122 c = true -> lower_char c = c.
Proof. each_char c. Qed.

Lemma in_class_lower c : in_class_az09sp c = true -> lower_char c = c.
Proof. each_char c. Qed.

Lemma in_class_is_kept c : in_class_az09sp c = Reference.is_kept c.
Proof. each_char c. Qed.

Lemma in_class_space c :
  in_class_az09sp c = true -> is_space_char c = true -> c = " "%char.
Proof. each_char c. Qed.

Lemma in_class_word c :
  in_class_az09sp c = true -> is_space_char c = false -> is_word_char c = true.
Proof. each_char c. Qed.

Lemma space_not_word c : is_space_char c = true -> is_word_char c = false.
Proof. each_char c. Qed.

(** * [' '.join(s.split())] is "collapse whitespace and trim" *)

Lemma split_from_nonempty tok s : tok <> [] -> split_from tok s <> [].
Proof.
  revert tok; induction s as [|c s IH]; intros tok Htok; simpl.
  - destruct tok; congruence.
  - destruct (is_space_char c).
    + destruct tok; congruence.
    + apply IH. destruct tok; discriminate.
Qed.

Lemma drop_spaces_snoc l c :
  drop_spaces (l ++ [c]) =
  if forallb is_space_char l then drop_spaces [c] else drop_spaces l ++ [c].
Proof.
  induction l as [|x l IH]; simpl; [done|].
  destruct (is_space_char x); simpl; [exact IH|done].
Qed.

Lemma forallb_rev {A} (f : A -> bool) l : forallb f (rev l) = forallb f l.
Proof.
  induction l as [|x l IH]; [done|].
  simpl. rewrite forallb_app, IH. simpl. rewrite andb_true_r. apply andb_comm.
Qed.

Lemma rstrip_cons c s :
  rstrip (c :: s) = if forallb is_space_char (c :: s) then [] else c :: rstrip s.
Proof.
  unfold rstrip. simpl rev. rewrite drop_spaces_snoc.
  rewrite forallb_rev. simpl.
  destruct (forallb is_space_char s) eqn:Hs.
  - destruct (is_space_char c); simpl; [done|].
    assert (drop_spaces (rev s) = []) as ->; [|done].
    assert (forallb is_space_char (rev s) = true) as H by (by rewrite forallb_rev).
    clear Hs. induction (rev s) as [|x l IH]; simpl in *; [done|].
    apply andb_true_iff in H as [-> H]. auto.
  - rewrite andb_false_r. by rewrite rev_app_distr.
Qed.

Lemma join_split_collapse s :
  (forall tok, tok <> [] ->
     py_join (lit " ") (split_from tok s) =
     tok ++ rstrip (Reference.collapse_whitespace false s)) /\
  rstrip (" "%char :: Reference.collapse_whitespace true s) =
  match split_from [] s with
  | [] => []
  | l => lit " " ++ py_join (lit " ") l
  end.
Proof.
  induction s as [|c s [IH1 IH2]]; split.
  - intros tok Htok. simpl. destruct tok; [done|]. by rewrite app_nil_r.
  - done.
  - intros tok Htok. simpl. destruct (is_space_char c) eqn:Hc.
    + destruct tok as [|t tok]; [done|].
      rewrite IH2.
      destruct (split_from [] s) eqn:Hsp; simpl; [by rewrite app_nil_r|done].
    + rewrite IH1 by (destruct tok; discriminate).
      rewrite rstrip_cons. simpl. rewrite Hc. simpl. by rewrite <- app_assoc.
  - simpl. destruct (is_space_char c) eqn:Hc; [exact IH2|].
    rewrite rstrip_cons. simpl.
    rewrite rstrip_cons. simpl. rewrite Hc. simpl.
    pose proof (split_from_nonempty [c] s ltac:(done)) as Hne.
    pose proof (IH1 [c] ltac:(done)) as H1.
    destruct (split_from [c] s) as [|l0 l1]; [done|].
    change (" "%char :: c :: rstrip (Reference.collapse_whitespace false s) =
            lit " " ++ py_join (lit " ") (l0 :: l1)).
    by rewrite H1.
Qed.

Lemma drop_spaces_collapse b s :
  drop_spaces (Reference.collapse_whitespace b s) =
  drop_spaces (Reference.collapse_whitespace false s).
Proof.
  destruct s as [|c s]; simpl; [done|].
  destruct (is_space_char c) eqn:Hc; [|done].
  destruct b; simpl; done.
Qed.

Lemma join_split_is_collapse_trim s :
  py_join (lit " ") (py_split s) =
  Reference.trim (Reference.collapse_whitespace false s).
Proof.
  unfold py_split, Reference.trim. fold (rstrip (drop_spaces (Reference.collapse_whitespace false s))).
  induction s as [|c s IH]; [done|].
  simpl. destruct (is_space_char c) eqn:Hc.
  - simpl. rewrite drop_spaces_collapse. exact IH.
  - simpl. rewrite Hc. change [" "%char] with (lit " ").
    rewrite (proj1 (join_split_collapse s) [c]) by done.
    rewrite rstrip_cons. simpl. by rewrite Hc.
Qed.

(** * The suffix pattern removes exactly the whole words that are tokens *)

Import Reference.

Lemma word_prefix_rest s : s = word_prefix s ++ word_rest s.
Proof.
  induction s as [|c s IH]; [done|].
  simpl. destruct (is_word_char c); [|done]. simpl. by f_equal.
Qed.

Lemma word_prefix_all_word s : forallb is_word_char (word_prefix s) = true.
Proof.
  induction s as [|c s IH]; [done|].
  simpl. destruct (is_word_char c) eqn:Hc; [|done]. simpl. by rewrite Hc.
Qed.

Lemma word_rest_head s : is_word_opt (head (word_rest s)) = false.
Proof.
  induction s as [|c s IH]; [done|].
  simpl. destruct (is_word_char c) eqn:Hc; [done|]. simpl. exact Hc.
Qed.

Lemma word_prefix_app w rest :
  forallb is_word_char w = true ->
  word_prefix (w ++ rest) = w ++ word_prefix rest.
Proof.
  induction w as [|c w IH]; [done|].
  simpl. intros [-> Hw]%andb_true_iff. by rewrite IH.
Qed.

Lemma word_rest_app w rest :
  forallb is_word_char w = true ->
  word_rest (w ++ rest) = word_rest rest.
Proof.
  induction w as [|c w IH]; [done|].
  simpl. intros [-> Hw]%andb_true_iff. by rewrite IH.
Qed.

Lemma word_prefix_stop s :
  is_word_opt (head s) = false -> word_prefix s = [] /\ word_rest s = s.
Proof. destruct s as [|c s]; simpl; [done|]. by intros ->. Qed.

Lemma last_opt_cons prev c w : last_opt prev (c :: w) = last_opt (Some c) w.
Proof.
  unfold last_opt. destruct w as [|d w]; [done|].
  change (last (c :: d :: w)) with (last (d :: w)).
  by destruct (last (d :: w)) eqn:Hl; [|apply last_None in Hl].
Qed.

Lemma last_opt_word prev w :
  w <> [] -> forallb is_word_char w = true ->
  is_word_opt (last_opt prev w) = true.
Proof.
  revert prev; induction w as [|c w IH]; intros prev Hne Hw; [done|].
  rewrite last_opt_cons. simpl in Hw. apply andb_true_iff in Hw as [Hc Hw].
  destruct w as [|d w]; [exact Hc|]. by apply IH.
Qed.

Lemma py_lower_letters_word w l :
  forallb (in_range 97 122) l = true -> py_lower w = l ->
  forallb is_word_char w = true.
Proof.
  revert l; induction w as [|c w IH]; intros l Hl Hw; [done|].
  destruct l as [|p l]; [done|]. simpl in *.
  apply andb_true_iff in Hl as [Hp Hl]. injection Hw as Hc Hw.
  rewrite (lower_letter_is_word c) by (by rewrite Hc). simpl. by eapply IH.
Qed.

Section SuffixPattern.
Variable alts : list str.
Hypothesis alts_literal :
  Forall (fun l => l <> [] /\ forallb (in_range 97 122) l = true) alts.

Lemma match_literal_spec l prev s :
  forallb (in_range 97 122) l = true ->
  match_literal l prev s =
  if bool_decide (py_lower (take (length l) s) = l)
  then Some (last_opt prev (take (length l) s), drop (length l) s)
  else None.
Proof.
  revert prev s; induction l as [|p l IH]; intros prev s Hl.
  - simpl. rewrite take_0, drop_0. done.
  - simpl in Hl. apply andb_true_iff in Hl as [Hp Hl].
    destruct s as [|c s]; [done|].
    cbn [match_literal length take drop py_lower map].
    unfold char_match_ci. rewrite (lower_char_letter p Hp).
    rewrite last_opt_cons, (IH (Some c) s Hl).
    fold (py_lower (take (length l) s)).
    repeat case_bool_decide; try done; congruence.
Qed.

Lemma alternative_step l prev s :
  l <> [] -> forallb (in_range 97 122) l = true ->
  match match_literal l prev s with
  | Some (last, rest) => at_boundary last (head rest)
  | None => false
  end = bool_decide (py_lower (word_prefix s) = l).
Proof.
  intros Hne Hl. rewrite match_literal_spec by done.
  set (pre := take (length l) s). set (rest := drop (length l) s).
  assert (s = pre ++ rest) as Hs by (symmetry; apply take_drop).
  case_bool_decide as Hpre.
  - assert (forallb is_word_char pre = true) as Hw
      by (by eapply py_lower_letters_word).
    assert (pre <> []) as Hpne by (intros E; rewrite E in Hpre; simpl in Hpre; congruence).
    unfold at_boundary. rewrite last_opt_word by done. simpl.
    replace (word_prefix s) with (pre ++ word_prefix rest)
      by (rewrite <- word_prefix_app by done; by rewrite <- Hs).
    destruct (is_word_opt (head rest)) eqn:Hr; simpl.
    + symmetry. apply bool_decide_eq_false. intros E.
      apply (f_equal length) in E. rewrite <- Hpre in E.
      unfold py_lower in E. rewrite !length_map, length_app in E.
      destruct rest as [|r rest']; [done|]. simpl in Hr. simpl in E.
      rewrite Hr in E. simpl in E. lia.
    + destruct (word_prefix_stop rest Hr) as [-> _].
      rewrite app_nil_r. symmetry. by apply bool_decide_eq_true.
  - symmetry. apply bool_decide_eq_false. intros E. apply Hpre.
    assert (pre = word_prefix s) as ->; [|done].
    subst pre. rewrite <- E. unfold py_lower. rewrite length_map.
    rewrite (word_prefix_rest s) at 2. apply take_app_length.
Qed.

Lemma match_alternatives_spec l0 prev s :
  Forall (fun l => l <> [] /\ forallb (in_range 97 122) l = true) l0 ->
  match_alternatives l0 prev s =
  if bool_decide (py_lower (word_prefix s) ∈ l0)
  then Some (length (word_prefix s)) else None.
Proof.
  induction 1 as [|l l0 [Hne Hl] _ IH]; [done|].
  cbn [match_alternatives].
  pose proof (alternative_step l prev s Hne Hl) as Hstep.
  destruct (match_literal l prev s) as [[last rest]|].
  - destruct (at_boundary last (head rest)).
    + symmetry in Hstep. apply bool_decide_eq_true in Hstep.
      rewrite bool_decide_eq_true_2 by (rewrite Hstep; left).
      rewrite <- Hstep. unfold py_lower. by rewrite length_map.
    + symmetry in Hstep. apply bool_decide_eq_false in Hstep.
      rewrite IH. apply (f_equal (fun b : bool => if b then _ else _)).
      apply bool_decide_ext. rewrite elem_of_cons.
      split; [by right|by intros [E|Hin]].
  - symmetry in Hstep. apply bool_decide_eq_false in Hstep.
    rewrite IH. apply (f_equal (fun b : bool => if b then _ else _)).
    apply bool_decide_ext. rewrite elem_of_cons.
      split; [by right|by intros [E|Hin]].
Qed.

Lemma nil_not_alternative : [] ∉ alts.
Proof.
  intros Hin. rewrite Forall_forall in alts_literal.
  by destruct (alts_literal [] Hin).
Qed.

Lemma match_here_spec prev s :
  match_here alts prev s =
  if negb (is_word_opt prev) && bool_decide (py_lower (word_prefix s) ∈ alts)
  then Some (length (word_prefix s)) else None.
Proof.
  unfold match_here, at_boundary. rewrite match_alternatives_spec by done.
  destruct (is_word_opt prev), (is_word_opt (head s)) eqn:Hh; simpl; try done.
  - destruct (word_prefix_stop s Hh) as [-> _]. simpl.
    by rewrite bool_decide_eq_false_2 by apply nil_not_alternative.
  - destruct (word_prefix_stop s Hh) as [-> _]. simpl.
    by rewrite bool_decide_eq_false_2 by apply nil_not_alternative.
Qed.
End SuffixPattern.

Lemma suffix_tokens_literal :
  Forall (fun l => l <> [] /\ forallb (in_range 97 122) l = true)
         Bootstrap.suffix_tokens.
Proof. repeat constructor; done. Qed.

Lemma match_here_suffix prev s :
  match_here Bootstrap.suffix_tokens prev s =
  if negb (is_word_opt prev) && is_suffix_token (word_prefix s)
  then Some (length (word_prefix s)) else None.
Proof. apply match_here_spec, suffix_tokens_literal. Qed.

(** Dropping the rest of a match. *)
Lemma scan_skip w prev rest :
  scan (length w) prev (w ++ rest) = scan 0 (last_opt prev w) rest.
Proof.
  revert prev; induction w as [|c w IH]; intros prev; [done|].
  simpl. rewrite IH. by rewrite last_opt_cons.
Qed.

(** Inside a word nothing matches. *)
Lemma scan_inside_word w prev rest :
  is_word_opt prev = true -> forallb is_word_char w = true ->
  scan 0 prev (w ++ rest) = w ++ scan 0 (last_opt prev w) rest.
Proof.
  revert prev; induction w as [|c w IH]; intros prev Hprev Hw; [done|].
  simpl in Hw. apply andb_true_iff in Hw as [Hc Hw].
  cbn [app re_sub_words_from]. rewrite match_here_suffix, Hprev. simpl.
  rewrite IH by done. by rewrite last_opt_cons.
Qed.

(** At the start of a word: the word goes when it is a suffix token. *)
Lemma scan_word_start prev s :
  is_word_opt prev = false -> is_word_opt (head s) = true ->
  scan 0 prev s =
  keep_word (word_prefix s) ++ scan 0 (last_opt prev (word_prefix s)) (word_rest s).
Proof.
  intros Hprev Hhead. destruct s as [|c s]; [done|]. simpl in Hhead.
  cbn [re_sub_words_from]. rewrite match_here_suffix, Hprev.
  cbn [negb andb word_prefix word_rest]. rewrite Hhead.
  pose proof (word_prefix_rest s) as Hs.
  pose proof (word_prefix_all_word s) as Hw.
  unfold keep_word. destruct (is_suffix_token (c :: word_prefix s)).
  - change (length (c :: word_prefix s)) with (S (length (word_prefix s))).
    cbv iota. rewrite app_nil_l, last_opt_cons, <- scan_skip. by rewrite <- Hs.
  - rewrite <- app_comm_cons. f_equal.
    rewrite last_opt_cons, <- scan_inside_word by done. by rewrite <- Hs.
Qed.

(** At a character that is not a word character nothing matches. *)
Lemma scan_other prev c s :
  is_word_char c = false ->
  scan 0 prev (c :: s) = c :: scan 0 (Some c) s.
Proof.
  intros Hc. cbn [re_sub_words_from]. rewrite match_here_suffix.
  cbn [word_prefix]. rewrite Hc. by rewrite andb_false_r.
Qed.

Lemma remove_from_word word w rest :
  forallb is_word_char w = true ->
  remove_suffix_words_from word (w ++ rest) =
  remove_suffix_words_from (word ++ w) rest.
Proof.
  revert word; induction w as [|c w IH]; intros word Hw.
  - by rewrite app_nil_r.
  - simpl in Hw. apply andb_true_iff in Hw as [Hc Hw].
    simpl. rewrite Hc, IH by done. by rewrite <- app_assoc.
Qed.

Lemma remove_from_stop word s :
  is_word_opt (head s) = false ->
  remove_suffix_words_from word s = keep_word word ++ remove_suffix_words_from [] s.
Proof.
  destruct s as [|c s]; simpl.
  - intros _. by rewrite app_nil_r.
  - by intros ->.
Qed.

Lemma scan_is_remove n : forall prev s,
  length s <= n ->
  is_word_opt prev = false \/ is_word_opt (head s) = false ->
  scan 0 prev s = remove_suffix_words s.
Proof.
  unfold remove_suffix_words.
  induction n as [|n IH]; intros prev s Hlen Hpos.
  - destruct s; [done|simpl in Hlen; lia].
  - destruct s as [|c s]; [done|].
    destruct (is_word_char c) eqn:Hc.
    + destruct Hpos as [Hprev|Hhead]; [|simpl in Hhead; congruence].
      rewrite scan_word_start by done.
      set (w := word_prefix (c :: s)). set (rest := word_rest (c :: s)).
      assert (c :: s = w ++ rest) as Hs by apply word_prefix_rest.
      assert (w <> []) as Hne by (subst w; simpl; by rewrite Hc).
      assert (forallb is_word_char w = true) as Hw by apply word_prefix_all_word.
      assert (is_word_opt (head rest) = false) as Hr by apply word_rest_head.
      clearbody w rest. rewrite Hs.
      rewrite remove_from_word, remove_from_stop by done. simpl.
      f_equal. apply IH; [|by right].
      apply (f_equal length) in Hs. rewrite length_app in Hs. simpl in *.
      destruct w; [done|]. simpl in Hs. lia.
    + rewrite scan_other by done. simpl. rewrite Hc. simpl.
      f_equal. apply IH; [simpl in Hlen; lia|]. left. simpl. exact Hc.
Qed.

Lemma re_sub_words_is_remove s :
  re_sub_words Bootstrap.suffix_tokens s = remove_suffix_words s.
Proof. apply (scan_is_remove (length s)); [lia|by left]. Qed.

Lemma re_sub_class_is_strip s : re_sub_not_az09sp s = strip_other s.
Proof.
  unfold re_sub_not_az09sp, strip_other.
  induction s as [|c s IH]; [done|].
  rewrite filter_cons. simpl. rewrite <- in_class_is_kept, <- IH.
  by destruct (in_class_az09sp c); case_decide.
Qed.

(** Below 256 [normalize_name] is its pipeline form: drop the words that
    are suffix tokens, lowercase, keep [[a-z0-9 ]], collapse the whitespace
    and trim. *)
Lemma normalize_name_is_pipeline :
  (forall s, Bootstrap.normalize_name s = Reference.normalize s) /\
  Bootstrap.normalize_name [] = [].
Proof.
  split; [|done].
  intros s. unfold Bootstrap.normalize_name, Reference.normalize, lowercase.
  rewrite re_sub_words_is_remove, re_sub_class_is_strip.
  apply join_split_is_collapse_trim.
Qed.

(** * [normalize_name] on any string is the four steps, away from the
      dotted and dotless i *)

Lemma below_256 {A} `{EqDecision A} (f g : N -> A) :
  forallb (fun c => bool_decide (f c = g c)) (map N.of_nat (seq 0 256)) = true ->
  forall c, (c < 256)%N -> f c = g c.
Proof.
  intros H c Hc. rewrite forallb_forall in H.
  apply (bool_decide_unpack _). apply Is_true_true, H.
  apply in_map_iff. exists (N.to_nat c). split; [lia|]. apply in_seq. lia.
Qed.

Ltac by_table :=
  match goal with
  | |- forall c : N, (c < 256)%N -> @?f c = @?g c =>
      apply (below_256 f g); vm_compute; reflexivity
  end.

Lemma point_below p : (Unicode.point p < 256)%N.
Proof. apply N_ascii_bounded. Qed.

Lemma same_word_length t : forall w,
  Pipeline.same_word t w = true -> length w = length t.
Proof.
  induction t as [|p t IH]; intros [|c w] H; simpl in H; try done.
  apply andb_true_iff in H as [_ H]. simpl. f_equal. by apply IH.
Qed.

Lemma match_ci_same_letter p c :
  Unicode.token_letter p = true -> Unicode.undotted c ->
  Unicode.match_ci p c = Pipeline.same_letter (Unicode.point p) c.
Proof.
  intros Hp [H1 H2]. apply bool_decide_eq_true in Hp.
  destruct (N.ltb_spec c 256) as [Hc|Hc].
  - clear H1 H2. revert c Hc.
    repeat (apply elem_of_cons in Hp as [->|Hp]);
      [by_table .. | by apply elem_of_nil in Hp].
  - unfold Unicode.match_ci, Pipeline.same_letter.
    pose proof (point_below p).
    rewrite (proj2 (N.ltb_ge c 256)) by done.
    rewrite (proj2 (N.eqb_neq c 304)), (proj2 (N.eqb_neq c 305)) by done.
    rewrite (proj2 (N.eqb_neq c (Unicode.point p))) by lia.
    rewrite (proj2 (N.eqb_neq (c + 32) (Unicode.point p))) by lia.
    rewrite andb_false_r. simpl.
    repeat (apply elem_of_cons in Hp as [->|Hp]);
      [by destruct (c =? 383)%N, (c =? 8490)%N .. | by apply elem_of_nil in Hp].
Qed.

Lemma unicode_last_opt_cons prev c w :
  Unicode.last_opt prev (c :: w) = Unicode.last_opt (Some c) w.
Proof.
  unfold Unicode.last_opt. destruct w as [|d w]; [done|].
  change (last (c :: d :: w)) with (last (d :: w)).
  by destruct (last (d :: w)) eqn:Hl; [|apply last_None in Hl].
Qed.

Lemma unicode_match_literal_spec l : forall prev s,
  forallb Unicode.token_letter l = true -> Forall Unicode.undotted s ->
  Unicode.match_literal l prev s =
  if Pipeline.same_word (map Unicode.point l) (take (length l) s)
  then Some (Unicode.last_opt prev (take (length l) s), drop (length l) s)
  else None.
Proof.
  induction l as [|p l IH]; intros prev s Hl Hs.
  - simpl. by rewrite take_0, drop_0.
  - simpl in Hl. apply andb_true_iff in Hl as [Hp Hl].
    destruct s as [|c s]; [done|].
    apply Forall_cons in Hs as [Hc Hs].
    cbn [Unicode.match_literal length take drop map Pipeline.same_word].
    rewrite match_ci_same_letter by done.
    destruct (Pipeline.same_letter (Unicode.point p) c); [|done].
    rewrite unicode_last_opt_cons, (IH (Some c) s Hl Hs). done.
Qed.

Lemma existsb_of_map {A B} (f : B -> bool) (g : A -> B) l :
  existsb f (map g l) = existsb (fun x => f (g x)) l.
Proof. induction l as [|x l IH]; [done|]. simpl. by rewrite IH. Qed.

Section AnyString.
Variable T : Unicode.tables.

Lemma word_character_is_word c : Pipeline.word_character T c = Unicode.is_word T c.
Proof.
  destruct (N.ltb_spec c 256) as [Hc|Hc].
  - revert c Hc. by_table.
  - unfold Pipeline.word_character, Unicode.is_word.
    by rewrite (proj2 (N.ltb_ge c 256)).
Qed.

Lemma whitespace_is_space c : Pipeline.whitespace T c = Unicode.is_space T c.
Proof.
  destruct (N.ltb_spec c 256) as [Hc|Hc].
  - revert c Hc. by_table.
  - unfold Pipeline.whitespace, Unicode.is_space.
    by rewrite (proj2 (N.ltb_ge c 256)).
Qed.

Lemma lowercase_of_is_lower c : Pipeline.lowercase_of T c = Unicode.lower T c.
Proof.
  destruct (N.ltb_spec c 256) as [Hc|Hc].
  - revert c Hc. by_table.
  - unfold Pipeline.lowercase_of, Unicode.lower.
    by rewrite (proj2 (N.ltb_ge c 256)).
Qed.

Lemma lowercase_is_lower s : Pipeline.lowercase T s = Unicode.py_lower T s.
Proof.
  unfold Pipeline.lowercase, Unicode.py_lower.
  induction s as [|c s IH]; [done|]. simpl. by rewrite lowercase_of_is_lower, IH.
Qed.

Lemma same_letter_is_word p c :
  Unicode.token_letter p = true ->
  Pipeline.same_letter (Unicode.point p) c = true -> Unicode.is_word T c = true.
Proof.
  intros Hp H. apply bool_decide_eq_true in Hp.
  assert (c < 256)%N as Hc.
  { pose proof (point_below p). unfold Pipeline.same_letter in H.
    apply orb_true_iff in H as [H|H]; apply N.eqb_eq in H; lia. }
  assert (implb (Pipeline.same_letter (Unicode.point p) c) (Unicode.is_word T c) = true) as Hi.
  { clear H. revert c Hc.
    repeat (apply elem_of_cons in Hp as [->|Hp]);
      [by_table .. | by apply elem_of_nil in Hp]. }
  by rewrite H in Hi.
Qed.

Lemma same_word_is_word l : forall w,
  forallb Unicode.token_letter l = true ->
  Pipeline.same_word (map Unicode.point l) w = true ->
  forallb (Unicode.is_word T) w = true.
Proof.
  induction l as [|p l IH]; intros [|c w] Hl H; simpl in *; try done.
  apply andb_true_iff in Hl as [Hp Hl]. apply andb_true_iff in H as [Hc H].
  rewrite (same_letter_is_word p c) by done. simpl. by apply IH.
Qed.

Lemma unicode_word_prefix_rest s :
  s = Unicode.word_prefix T s ++ Unicode.word_rest T s.
Proof.
  induction s as [|c s IH]; [done|].
  simpl. destruct (Unicode.is_word T c); [|done]. simpl. by f_equal.
Qed.

Lemma unicode_word_prefix_all_word s :
  forallb (Unicode.is_word T) (Unicode.word_prefix T s) = true.
Proof.
  induction s as [|c s IH]; [done|].
  simpl. destruct (Unicode.is_word T c) eqn:Hc; [|done]. simpl. by rewrite Hc.
Qed.

Lemma unicode_word_rest_head s :
  Unicode.is_word_opt T (head (Unicode.word_rest T s)) = false.
Proof.
  induction s as [|c s IH]; [done|].
  simpl. destruct (Unicode.is_word T c) eqn:Hc; [done|]. simpl. exact Hc.
Qed.

Lemma unicode_word_prefix_app w rest :
  forallb (Unicode.is_word T) w = true ->
  Unicode.word_prefix T (w ++ rest) = w ++ Unicode.word_prefix T rest.
Proof.
  induction w as [|c w IH]; [done|].
  simpl. intros [-> Hw]%andb_true_iff. by rewrite IH.
Qed.

Lemma unicode_word_prefix_stop s :
  Unicode.is_word_opt T (head s) = false ->
  Unicode.word_prefix T s = [] /\ Unicode.word_rest T s = s.
Proof. destruct s as [|c s]; simpl; [done|]. by intros ->. Qed.

Lemma unicode_last_opt_word prev w :
  w <> [] -> forallb (Unicode.is_word T) w = true ->
  Unicode.is_word_opt T (Unicode.last_opt prev w) = true.
Proof.
  revert prev; induction w as [|c w IH]; intros prev Hne Hw; [done|].
  rewrite unicode_last_opt_cons. simpl in Hw. apply andb_true_iff in Hw as [Hc Hw].
  destruct w as [|d w]; [exact Hc|]. by apply IH.
Qed.

Lemma undotted_take n s : Forall Unicode.undotted s -> Forall Unicode.undotted (take n s).
Proof. apply Forall_take. Qed.

(** An alternative followed by [\b] matches when the word at the position
    is the token, in any case of its letters. *)
Lemma unicode_alternative_step l prev s :
  l <> [] -> forallb Unicode.token_letter l = true ->
  Forall Unicode.undotted s ->
  match Unicode.match_literal l prev s with
  | Some (last, rest) => Unicode.at_boundary T last (head rest)
  | None => false
  end = Pipeline.same_word (map Unicode.point l) (Unicode.word_prefix T s).
Proof.
  intros Hne Hl Hs. rewrite unicode_match_literal_spec by done.
  set (pre := take (length l) s). set (rest := drop (length l) s).
  assert (s = pre ++ rest) as Hsplit by (symmetry; apply take_drop).
  destruct (Pipeline.same_word (map Unicode.point l) pre) eqn:Hpre.
  - assert (forallb (Unicode.is_word T) pre = true) as Hw
      by (by eapply same_word_is_word).
    pose proof (same_word_length _ _ Hpre) as Hlen. rewrite length_map in Hlen.
    assert (pre <> []) as Hpne by (intros E; rewrite E in Hlen; by destruct l).
    unfold Unicode.at_boundary. rewrite unicode_last_opt_word by done. simpl.
    replace (Unicode.word_prefix T s) with (pre ++ Unicode.word_prefix T rest)
      by (rewrite <- unicode_word_prefix_app by done; by rewrite <- Hsplit).
    destruct (Unicode.is_word_opt T (head rest)) eqn:Hr; simpl.
    + symmetry. apply not_true_is_false. intros E%same_word_length.
      rewrite length_map, length_app in E.
      destruct rest as [|r rest']; [done|]. simpl in Hr. simpl in E.
      rewrite Hr in E. simpl in E. lia.
    + destruct (unicode_word_prefix_stop rest Hr) as [-> _].
      by rewrite app_nil_r.
  - symmetry. apply not_true_is_false. intros E.
    assert (pre = Unicode.word_prefix T s) as Epre; [|by rewrite Epre, E in Hpre].
    subst pre. pose proof (same_word_length _ _ E) as Hlen.
    rewrite length_map in Hlen. rewrite <- Hlen.
    rewrite (unicode_word_prefix_rest s) at 2. apply take_app_length.
Qed.

Lemma unicode_match_alternatives_spec l0 prev s :
  Forall (fun l => l <> [] /\ forallb Unicode.token_letter l = true) l0 ->
  Forall Unicode.undotted s ->
  Unicode.match_alternatives T l0 prev s =
  if existsb (fun l => Pipeline.same_word (map Unicode.point l) (Unicode.word_prefix T s)) l0
  then Some (length (Unicode.word_prefix T s)) else None.
Proof.
  intros Hl0 Hs. induction Hl0 as [|l l0 [Hne Hl] _ IH]; [done|].
  cbn [Unicode.match_alternatives existsb].
  pose proof (unicode_alternative_step l prev s Hne Hl Hs) as Hstep.
  destruct (Unicode.match_literal l prev s) as [[last rest]|].
  - destruct (Unicode.at_boundary T last (head rest)).
    + rewrite <- Hstep. simpl. symmetry in Hstep.
      apply same_word_length in Hstep. rewrite length_map in Hstep. by rewrite Hstep.
    + by rewrite <- Hstep.
  - by rewrite <- Hstep.
Qed.

Lemma suffix_tokens_letters :
  Forall (fun l => l <> [] /\ forallb Unicode.token_letter l = true)
         Bootstrap.suffix_tokens.
Proof. repeat constructor; done. Qed.

(** The code's tokens are the nine of the specification. *)
Lemma suffix_tokens_are_tokens :
  map (map Unicode.point) Bootstrap.suffix_tokens = Pipeline.tokens.
Proof. reflexivity. Qed.

Lemma unicode_match_here_suffix prev s :
  Forall Unicode.undotted s ->
  Unicode.match_here T Bootstrap.suffix_tokens prev s =
  if negb (Unicode.is_word_opt T prev) && Pipeline.is_suffix_word (Unicode.word_prefix T s)
  then Some (length (Unicode.word_prefix T s)) else None.
Proof.
  intros Hs. unfold Unicode.match_here, Unicode.at_boundary.
  rewrite unicode_match_alternatives_spec by (done || apply suffix_tokens_letters).
  unfold Pipeline.is_suffix_word. rewrite <- suffix_tokens_are_tokens, existsb_of_map.
  destruct (Unicode.is_word_opt T prev), (Unicode.is_word_opt T (head s)) eqn:Hh;
    simpl; try done.
  - by destruct (unicode_word_prefix_stop s Hh) as [-> _].
  - by destruct (unicode_word_prefix_stop s Hh) as [-> _].
Qed.

(** Dropping the rest of a match. *)
Lemma unicode_scan_skip w : forall prev rest,
  Unicode.re_sub_words_from T Bootstrap.suffix_tokens (length w) prev (w ++ rest) =
  Unicode.re_sub_words_from T Bootstrap.suffix_tokens 0 (Unicode.last_opt prev w) rest.
Proof.
  induction w as [|c w IH]; intros prev rest; [done|].
  simpl. rewrite IH. by rewrite unicode_last_opt_cons.
Qed.

(** Inside a word nothing matches. *)
Lemma unicode_scan_inside_word w : forall prev rest,
  Forall Unicode.undotted (w ++ rest) ->
  Unicode.is_word_opt T prev = true -> forallb (Unicode.is_word T) w = true ->
  Unicode.re_sub_words_from T Bootstrap.suffix_tokens 0 prev (w ++ rest) =
  w ++ Unicode.re_sub_words_from T Bootstrap.suffix_tokens 0 (Unicode.last_opt prev w) rest.
Proof.
  induction w as [|c w IH]; intros prev rest Hs Hprev Hw; [done|].
  simpl in Hw. apply andb_true_iff in Hw as [Hc Hw].
  cbn [app Unicode.re_sub_words_from]. rewrite unicode_match_here_suffix, Hprev by done.
  simpl. apply Forall_cons in Hs as [_ Hs].
  rewrite IH by done. by rewrite unicode_last_opt_cons.
Qed.

(** At the start of a word: the word goes when it is a suffix token. *)
Lemma unicode_scan_word_start prev s :
  Forall Unicode.undotted s ->
  Unicode.is_word_opt T prev = false -> Unicode.is_word_opt T (head s) = true ->
  Unicode.re_sub_words_from T Bootstrap.suffix_tokens 0 prev s =
  Pipeline.keep_word (Unicode.word_prefix T s) ++
  Unicode.re_sub_words_from T Bootstrap.suffix_tokens 0
    (Unicode.last_opt prev (Unicode.word_prefix T s)) (Unicode.word_rest T s).
Proof.
  intros Hs Hprev Hhead. destruct s as [|c s]; [done|]. simpl in Hhead.
  cbn [Unicode.re_sub_words_from]. rewrite unicode_match_here_suffix, Hprev by done.
  cbn [negb andb Unicode.word_prefix Unicode.word_rest]. rewrite Hhead.
  pose proof (unicode_word_prefix_rest s) as Hsplit.
  pose proof (unicode_word_prefix_all_word s) as Hw.
  apply Forall_cons in Hs as [_ Hs].
  unfold Pipeline.keep_word.
  destruct (Pipeline.is_suffix_word (c :: Unicode.word_prefix T s)).
  - change (length (c :: Unicode.word_prefix T s))
      with (S (length (Unicode.word_prefix T s))).
    cbv iota. rewrite app_nil_l, unicode_last_opt_cons, <- unicode_scan_skip.
    by rewrite <- Hsplit.
  - rewrite <- app_comm_cons. f_equal.
    rewrite unicode_last_opt_cons, <- unicode_scan_inside_word; [by rewrite <- Hsplit| |done|done].
    by rewrite <- Hsplit.
Qed.

(** At a character that is not a word character nothing matches. *)
Lemma unicode_scan_other prev c s :
  Forall Unicode.undotted (c :: s) ->
  Unicode.is_word T c = false ->
  Unicode.re_sub_words_from T Bootstrap.suffix_tokens 0 prev (c :: s) =
  c :: Unicode.re_sub_words_from T Bootstrap.suffix_tokens 0 (Some c) s.
Proof.
  intros Hs Hc. cbn [Unicode.re_sub_words_from]. rewrite unicode_match_here_suffix by done.
  cbn [Unicode.word_prefix]. rewrite Hc. by rewrite andb_false_r.
Qed.

Lemma remove_words_word w : forall word rest,
  forallb (Unicode.is_word T) w = true ->
  Pipeline.remove_words_from T word (w ++ rest) =
  Pipeline.remove_words_from T (word ++ w) rest.
Proof.
  induction w as [|c w IH]; intros word rest Hw.
  - by rewrite app_nil_r.
  - simpl in Hw. apply andb_true_iff in Hw as [Hc Hw].
    simpl. rewrite word_character_is_word, Hc, IH by done. by rewrite <- app_assoc.
Qed.

Lemma remove_words_stop word s :
  Unicode.is_word_opt T (head s) = false ->
  Pipeline.remove_words_from T word s =
  Pipeline.keep_word word ++ Pipeline.remove_words_from T [] s.
Proof.
  destruct s as [|c s]; simpl.
  - intros _. by rewrite app_nil_r.
  - rewrite word_character_is_word. by intros ->.
Qed.

Lemma unicode_scan_is_remove n : forall prev s,
  Forall Unicode.undotted s ->
  length s <= n ->
  Unicode.is_word_opt T prev = false \/ Unicode.is_word_opt T (head s) = false ->
  Unicode.re_sub_words_from T Bootstrap.suffix_tokens 0 prev s = Pipeline.remove_words T s.
Proof.
  unfold Pipeline.remove_words.
  induction n as [|n IH]; intros prev s Hs Hlen Hpos.
  - destruct s; [done|simpl in Hlen; lia].
  - destruct s as [|c s]; [done|].
    destruct (Unicode.is_word T c) eqn:Hc.
    + destruct Hpos as [Hprev|Hhead]; [|simpl in Hhead; congruence].
      rewrite unicode_scan_word_start by done.
      set (w := Unicode.word_prefix T (c :: s)).
      set (rest := Unicode.word_rest T (c :: s)).
      assert (c :: s = w ++ rest) as Hsplit by apply unicode_word_prefix_rest.
      assert (w <> []) as Hne by (subst w; simpl; by rewrite Hc).
      assert (forallb (Unicode.is_word T) w = true) as Hw
        by apply unicode_word_prefix_all_word.
      assert (Unicode.is_word_opt T (head rest) = false) as Hr
        by apply unicode_word_rest_head.
      clearbody w rest. rewrite Hsplit in Hs |- *.
      apply Forall_app in Hs as [_ Hs].
      rewrite remove_words_word, remove_words_stop by done. simpl.
      f_equal. apply IH; [done| |by right].
      apply (f_equal length) in Hsplit. rewrite length_app in Hsplit. simpl in *.
      destruct w; [done|]. simpl in Hsplit. lia.
    + rewrite unicode_scan_other by done. simpl.
      rewrite word_character_is_word, Hc. simpl.
      apply Forall_cons in Hs as [_ Hs].
      f_equal. apply IH; [done|simpl in Hlen; lia|]. left. simpl. exact Hc.
Qed.

Lemma unicode_re_sub_words_is_remove s :
  Forall Unicode.undotted s ->
  Unicode.re_sub_words T Bootstrap.suffix_tokens s = Pipeline.remove_words T s.
Proof. intros Hs. apply (unicode_scan_is_remove (length s)); [done|lia|by left]. Qed.

Lemma unicode_split_from_nonempty tok s :
  tok <> [] -> Unicode.split_from T tok s <> [].
Proof.
  revert tok; induction s as [|c s IH]; intros tok Htok; simpl.
  - destruct tok; congruence.
  - destruct (Unicode.is_space T c).
    + destruct tok; congruence.
    + apply IH. destruct tok; discriminate.
Qed.

Lemma unicode_drop_spaces_snoc l c :
  Unicode.drop_spaces T (l ++ [c]) =
  if forallb (Unicode.is_space T) l then Unicode.drop_spaces T [c]
  else Unicode.drop_spaces T l ++ [c].
Proof.
  induction l as [|x l IH]; simpl; [done|].
  destruct (Unicode.is_space T x); simpl; [exact IH|done].
Qed.

Lemma unicode_rstrip_cons c s :
  Unicode.rstrip T (c :: s) =
  if forallb (Unicode.is_space T) (c :: s) then [] else c :: Unicode.rstrip T s.
Proof.
  unfold Unicode.rstrip. simpl rev. rewrite unicode_drop_spaces_snoc.
  rewrite forallb_rev. simpl.
  destruct (forallb (Unicode.is_space T) s) eqn:Hs.
  - destruct (Unicode.is_space T c); simpl; [done|].
    assert (Unicode.drop_spaces T (rev s) = []) as ->; [|done].
    assert (forallb (Unicode.is_space T) (rev s) = true) as H by (by rewrite forallb_rev).
    clear Hs. induction (rev s) as [|x l IH]; simpl in *; [done|].
    apply andb_true_iff in H as [-> H]. auto.
  - rewrite andb_false_r. by rewrite rev_app_distr.
Qed.

Lemma drop_whitespace_is_drop_spaces s :
  Pipeline.drop_whitespace T s = Unicode.drop_spaces T s.
Proof.
  induction s as [|c s IH]; [done|].
  simpl. rewrite whitespace_is_space, IH. done.
Qed.

Lemma unicode_join_split_collapse s :
  (forall tok, tok <> [] ->
     Unicode.py_join [32%N] (Unicode.split_from T tok s) =
     tok ++ Unicode.rstrip T (Pipeline.collapse_whitespace T false s)) /\
  Unicode.rstrip T (32%N :: Pipeline.collapse_whitespace T true s) =
  match Unicode.split_from T [] s with
  | [] => []
  | l => [32%N] ++ Unicode.py_join [32%N] l
  end.
Proof.
  induction s as [|c s [IH1 IH2]]; split.
  - intros tok Htok. simpl. destruct tok; [done|]. by rewrite app_nil_r.
  - done.
  - intros tok Htok. simpl. rewrite whitespace_is_space.
    destruct (Unicode.is_space T c) eqn:Hc.
    + destruct tok as [|t tok]; [done|].
      rewrite IH2.
      destruct (Unicode.split_from T [] s) eqn:Hsp; simpl; [by rewrite app_nil_r|done].
    + rewrite IH1 by (destruct tok; discriminate).
      rewrite unicode_rstrip_cons. simpl. rewrite Hc. simpl. by rewrite <- app_assoc.
  - simpl. rewrite whitespace_is_space.
    destruct (Unicode.is_space T c) eqn:Hc; [exact IH2|].
    rewrite unicode_rstrip_cons. simpl.
    rewrite unicode_rstrip_cons. simpl. rewrite Hc. simpl.
    pose proof (unicode_split_from_nonempty [c] s ltac:(done)) as Hne.
    pose proof (IH1 [c] ltac:(done)) as H1.
    destruct (Unicode.split_from T [c] s) as [|l0 l1]; [done|].
    change (32%N :: c :: Unicode.rstrip T (Pipeline.collapse_whitespace T false s) =
            [32%N] ++ Unicode.py_join [32%N] (l0 :: l1)).
    by rewrite H1.
Qed.

Lemma unicode_drop_spaces_collapse b s :
  Unicode.drop_spaces T (Pipeline.collapse_whitespace T b s) =
  Unicode.drop_spaces T (Pipeline.collapse_whitespace T false s).
Proof.
  destruct s as [|c s]; simpl; [done|]. rewrite whitespace_is_space.
  destruct (Unicode.is_space T c) eqn:Hc; [|done].
  destruct b; [|done]. cbn [Unicode.drop_spaces].
  by change (Unicode.is_space T 32) with true.
Qed.

Lemma unicode_join_split_is_collapse_trim s :
  Unicode.py_join [32%N] (Unicode.py_split T s) =
  Pipeline.trim T (Pipeline.collapse_whitespace T false s).
Proof.
  unfold Unicode.py_split, Pipeline.trim. rewrite !drop_whitespace_is_drop_spaces.
  fold (Unicode.rstrip T (Unicode.drop_spaces T (Pipeline.collapse_whitespace T false s))).
  induction s as [|c s IH]; [done|].
  simpl. rewrite whitespace_is_space. destruct (Unicode.is_space T c) eqn:Hc.
  - cbn [Unicode.drop_spaces]. change (Unicode.is_space T 32) with true. cbv iota.
    rewrite unicode_drop_spaces_collapse. exact IH.
  - simpl. rewrite Hc.
    rewrite (proj1 (unicode_join_split_collapse s) [c]) by done.
    rewrite unicode_rstrip_cons. simpl. by rewrite Hc.
Qed.

End AnyString.

(** C4 (amended). For every string that contains neither U+0130 nor
    U+0131, whatever its other code points, [normalize_name] is total (a
    Rocq function) and is the four steps of the specification: (a) drop
    the whole words that are one of the nine corporate-suffix tokens in any
    case of their letters, (b) lowercase, (c) delete every character that
    is not a lowercase ASCII letter, a digit or a space, (d) collapse
    whitespace runs to one space and trim; and the empty string normalizes
    to the empty string. *)
Theorem normalize_name_is_four_steps (T : Unicode.tables) (s : list N) :
  Forall Unicode.undotted s ->
  Unicode.normalize_name T s = Pipeline.normalize T s /\
  Unicode.normalize_name T [] = [].
Proof.
  intros Hs. split; [|done].
  unfold Unicode.normalize_name, Pipeline.normalize.
  rewrite unicode_re_sub_words_is_remove, lowercase_is_lower by done.
  apply unicode_join_split_is_collapse_trim.
Qed.

Lemma normalize_name_is_four_steps_witness :
  Unicode.normalize_name sample_tables alpha_inc = Pipeline.normalize sample_tables alpha_inc /\
  Unicode.normalize_name sample_tables [] = [].
Proof.
  apply (normalize_name_is_four_steps sample_tables alpha_inc).
  unfold alpha_inc. repeat (constructor; [split; discriminate|]). constructor.
Defined.

(** C4 (as stated) fails on "İnc", U+0130 followed by "nc": under [re.I]
    the pattern letter i matches U+0130, so that the word is removed and
    the result is empty; the word is not "inc" in any case of its letters,
    and the four steps leave "inc" (the lowercase form of U+0130 is i
    followed by U+0307, which step (c) deletes). *)
Lemma normalize_name_removes_dotted_inc :
  Unicode.normalize_name sample_tables dotted_inc = [] /\
  Pipeline.normalize sample_tables dotted_inc = map Unicode.point (lit "inc") /\
  ~ (forall T s, Unicode.normalize_name T s = Pipeline.normalize T s).
Proof.
  split; [reflexivity|]. split; [reflexivity|].
  intros H. specialize (H sample_tables dotted_inc). vm_compute in H. discriminate.
Qed.

(** The same with U+0131, the i without a dot: "ınc" is removed by the
    code, and the four steps leave "nc". *)
Example normalize_name_removes_dotless_inc :
  Unicode.normalize_name sample_tables [305; 110; 99]%N = [] /\
  Pipeline.normalize sample_tables [305; 110; 99]%N = map Unicode.point (lit "nc").
Proof. split; reflexivity. Qed.

(** * The two models of [normalize_name] agree below 256 *)

Lemma point_inj c d : Unicode.point c = Unicode.point d -> c = d.
Proof.
  intros H. apply (f_equal ascii_of_N) in H.
  unfold Unicode.point in H. by rewrite !ascii_N_embedding in H.
Qed.

Lemma match_ci_point p c : Unicode.match_ci p (Unicode.point c) = char_match_ci p c.
Proof.
  unfold Unicode.match_ci. rewrite (proj2 (N.ltb_lt _ _) (point_below c)).
  unfold Unicode.point. by rewrite ascii_N_embedding.
Qed.

Lemma match_literal_points l : forall (prev : option ascii) s,
  Unicode.match_literal l (Unicode.point <$> prev) (map Unicode.point s) =
  (fun r : option ascii * list ascii => (Unicode.point <$> r.1, map Unicode.point r.2))
    <$> match_literal l prev s.
Proof.
  induction l as [|p l IH]; intros prev s; [done|].
  destruct s as [|c s]; [done|]. simpl. rewrite match_ci_point.
  destruct (char_match_ci p c); [|done]. exact (IH (Some c) s).
Qed.

Lemma in_class_point c : Unicode.in_class_az09sp (Unicode.point c) = in_class_az09sp c.
Proof. each_char c. Qed.

Lemma re_sub_class_points s :
  Unicode.re_sub_not_az09sp (map Unicode.point s) = map Unicode.point (re_sub_not_az09sp s).
Proof.
  unfold Unicode.re_sub_not_az09sp, re_sub_not_az09sp.
  induction s as [|c s IH]; [done|].
  rewrite filter_cons. simpl. rewrite in_class_point, IH.
  by destruct (in_class_az09sp c); case_decide.
Qed.

Lemma py_join_points sep l :
  Unicode.py_join (map Unicode.point sep) (map (map Unicode.point) l) =
  map Unicode.point (py_join sep l).
Proof.
  induction l as [|x l IH]; [done|].
  destruct l as [|y l]; [done|].
  change (map Unicode.point x ++ map Unicode.point sep ++
          Unicode.py_join (map Unicode.point sep) (map (map Unicode.point) (y :: l)) =
          map Unicode.point (x ++ sep ++ py_join sep (y :: l))).
  by rewrite IH, !map_app.
Qed.

Section Below256.
Variable T : Unicode.tables.

Lemma is_word_point c : Unicode.is_word T (Unicode.point c) = is_word_char c.
Proof.
  unfold Unicode.is_word. rewrite (proj2 (N.ltb_lt _ _) (point_below c)).
  unfold Unicode.point. by rewrite ascii_N_embedding.
Qed.

Lemma is_space_point c : Unicode.is_space T (Unicode.point c) = is_space_char c.
Proof.
  unfold Unicode.is_space. rewrite (proj2 (N.ltb_lt _ _) (point_below c)).
  unfold Unicode.point. by rewrite ascii_N_embedding.
Qed.

Lemma lower_point c : Unicode.lower T (Unicode.point c) = [Unicode.point (lower_char c)].
Proof.
  unfold Unicode.lower. rewrite (proj2 (N.ltb_lt _ _) (point_below c)).
  unfold Unicode.point. by rewrite ascii_N_embedding.
Qed.

Lemma py_lower_points s :
  Unicode.py_lower T (map Unicode.point s) = map Unicode.point (py_lower s).
Proof.
  induction s as [|c s IH]; [done|].
  unfold Unicode.py_lower in *. simpl. by rewrite lower_point, IH.
Qed.

Lemma is_word_opt_point (o : option ascii) :
  Unicode.is_word_opt T (Unicode.point <$> o) = is_word_opt o.
Proof. destruct o as [c|]; [apply is_word_point|done]. Qed.

Lemma head_points (s : list ascii) : head (map Unicode.point s) = Unicode.point <$> head s.
Proof. by destruct s. Qed.

Lemma match_alternatives_points alts (prev : option ascii) s :
  Unicode.match_alternatives T alts (Unicode.point <$> prev) (map Unicode.point s) =
  match_alternatives alts prev s.
Proof.
  induction alts as [|l alts IH]; [done|].
  simpl. rewrite match_literal_points.
  destruct (match_literal l prev s) as [[last rest]|]; simpl; [|exact IH].
  unfold Unicode.at_boundary, at_boundary.
  rewrite head_points, !is_word_opt_point. by rewrite IH.
Qed.

Lemma match_here_points alts (prev : option ascii) s :
  Unicode.match_here T alts (Unicode.point <$> prev) (map Unicode.point s) =
  match_here alts prev s.
Proof.
  unfold Unicode.match_here, match_here, Unicode.at_boundary, at_boundary.
  by rewrite head_points, !is_word_opt_point, match_alternatives_points.
Qed.

Lemma re_sub_words_from_points alts s : forall skip (prev : option ascii),
  Unicode.re_sub_words_from T alts skip (Unicode.point <$> prev) (map Unicode.point s) =
  map Unicode.point (re_sub_words_from alts skip prev s).
Proof.
  induction s as [|c s IH]; intros skip prev; [done|].
  cbn [map Unicode.re_sub_words_from re_sub_words_from].
  destruct skip as [|k]; [|exact (IH k (Some c))].
  change (Unicode.point c :: map Unicode.point s) with (map Unicode.point (c :: s)).
  rewrite match_here_points.
  destruct (match_here alts prev (c :: s)) as [[|k]|].
  - simpl. f_equal. exact (IH 0 (Some c)).
  - exact (IH k (Some c)).
  - simpl. f_equal. exact (IH 0 (Some c)).
Qed.

Lemma split_from_points s : forall tok,
  Unicode.split_from T (map Unicode.point tok) (map Unicode.point s) =
  map (map Unicode.point) (split_from tok s).
Proof.
  induction s as [|c s IH]; intros tok.
  - by destruct tok.
  - simpl. rewrite is_space_point. destruct (is_space_char c).
    + destruct tok as [|t tok]; simpl; [exact (IH [])|]. f_equal. exact (IH []).
    + change [Unicode.point c] with (map Unicode.point [c]).
      rewrite <- map_app. apply IH.
Qed.

(** On a string of code points below 256 the two models are the same
    function. *)
Lemma normalize_name_points s :
  Unicode.normalize_name T (map Unicode.point s) =
  map Unicode.point (Bootstrap.normalize_name s).
Proof.
  unfold Unicode.normalize_name, Bootstrap.normalize_name.
  unfold Unicode.re_sub_words, re_sub_words.
  rewrite (re_sub_words_from_points _ s 0 None).
  rewrite py_lower_points, re_sub_class_points.
  unfold Unicode.py_split, py_split.
  rewrite (split_from_points _ []).
  exact (py_join_points (lit " ") _).
Qed.
End Below256.

Lemma points_of_below s :
  Forall (fun c => (c < 256)%N) s -> s = map Unicode.point (map ascii_of_N s).
Proof.
  induction 1 as [|c s Hc _ IH]; [done|].
  simpl. rewrite <- IH. f_equal. unfold Unicode.point.
  symmetry. by apply N_ascii_embedding.
Qed.

(** * Normalizing a normalized string *)

Lemma token_char_facts c :
  token_char c = true ->
  is_word_char c = true /\ is_space_char c = false /\
  in_class_az09sp c = true /\ lower_char c = c.
Proof. each_char c. Qed.

Lemma class_char_token c :
  in_class_az09sp c = true -> is_space_char c = false -> token_char c = true.
Proof. each_char c. Qed.

Lemma space_in_class : in_class_az09sp " "%char = true /\ is_space_char " "%char = true
  /\ is_word_char " "%char = false /\ lower_char " "%char = " "%char.
Proof. done. Qed.

Lemma split_from_tokens s : forall tok,
  forallb in_class_az09sp s = true -> forallb token_char tok = true ->
  forallb is_token (split_from tok s) = true.
Proof.
  induction s as [|c s IH]; intros tok Hs Htok; simpl in *.
  - destruct tok; [done|]. unfold is_token. simpl in *. by rewrite Htok.
  - apply andb_true_iff in Hs as [Hc Hs].
    destruct (is_space_char c) eqn:Hsp.
    + destruct tok as [|t tok]; [by apply IH|].
      cbn [forallb]. rewrite IH by done. unfold is_token.
      rewrite Htok. done.
    + apply IH; [done|]. rewrite forallb_app, Htok. simpl.
      by rewrite class_char_token.
Qed.

Lemma split_from_word w : forall tok rest,
  forallb (fun c => negb (is_space_char c)) w = true ->
  split_from tok (w ++ rest) = split_from (tok ++ w) rest.
Proof.
  induction w as [|c w IH]; intros tok rest Hw; simpl in *.
  - by rewrite app_nil_r.
  - apply andb_true_iff in Hw as [Hc Hw]. apply negb_true_iff in Hc.
    rewrite Hc, IH by done. by rewrite <- app_assoc.
Qed.

Lemma split_join ws :
  Forall (fun w => forallb (fun c => negb (is_space_char c)) w = true) ws ->
  py_split (py_join (lit " ") ws) = List.filter nonempty ws.
Proof.
  unfold py_split. induction 1 as [|x ws Hx Hws IH]; [done|].
  destruct ws as [|y ws].
  - cbn [py_join List.filter]. rewrite <- (app_nil_r x) at 1.
    rewrite split_from_word by done. simpl. by destruct x.
  - change (py_join (lit " ") (x :: y :: ws))
      with (x ++ " "%char :: py_join (lit " ") (y :: ws)).
    rewrite split_from_word by done. cbn [app split_from List.filter].
    rewrite IH. by destruct x.
Qed.

Lemma token_chars_word t : forallb token_char t = true -> forallb is_word_char t = true.
Proof.
  induction t as [|c t IH]; [done|]. simpl.
  intros [Hc Ht]%andb_true_iff.
  destruct (token_char_facts c Hc) as (-> & _). by rewrite IH.
Qed.

Lemma token_chars_no_space t :
  forallb token_char t = true ->
  forallb (fun c => negb (is_space_char c)) t = true.
Proof.
  induction t as [|c t IH]; [done|]. simpl.
  intros [Hc Ht]%andb_true_iff.
  destruct (token_char_facts c Hc) as (_ & -> & _). by rewrite IH.
Qed.

Lemma remove_join toks :
  forallb is_token toks = true ->
  remove_suffix_words (py_join (lit " ") toks) =
  py_join (lit " ") (map keep_word toks).
Proof.
  unfold remove_suffix_words. induction toks as [|x toks IH]; [done|].
  cbn [forallb]. intros [Hx Htoks]%andb_true_iff.
  apply andb_true_iff in Hx as [_ Hx]. apply token_chars_word in Hx.
  destruct toks as [|y toks].
  - cbn [py_join map]. rewrite <- (app_nil_r x) at 1.
    by rewrite remove_from_word.
  - change (py_join (lit " ") (x :: y :: toks))
      with (x ++ " "%char :: py_join (lit " ") (y :: toks)).
    rewrite remove_from_word by done. cbn [app remove_suffix_words_from].
    destruct space_in_class as (_ & _ & -> & _).
    rewrite IH by done. done.
Qed.

Lemma join_class ws :
  Forall (fun w => forallb token_char w = true) ws ->
  forallb in_class_az09sp (py_join (lit " ") ws) = true /\
  py_lower (py_join (lit " ") ws) = py_join (lit " ") ws.
Proof.
  induction 1 as [|x ws Hx Hws [IH1 IH2]]; [done|].
  assert (forallb in_class_az09sp x = true /\ py_lower x = x) as [Hx1 Hx2].
  { clear -Hx. induction x as [|c x IH]; [done|]. simpl in *.
    apply andb_true_iff in Hx as [Hc Hx].
    destruct (token_char_facts c Hc) as (_ & _ & -> & ->).
    destruct (IH Hx) as [-> ->]. done. }
  destruct ws as [|y ws]; [done|].
  change (py_join (lit " ") (x :: y :: ws))
    with (x ++ " "%char :: py_join (lit " ") (y :: ws)).
  unfold py_lower in *. rewrite forallb_app, map_app. cbn [forallb map].
  by rewrite Hx1, Hx2, IH1, IH2.
Qed.

Lemma filter_class_id s :
  forallb in_class_az09sp s = true -> re_sub_not_az09sp s = s.
Proof.
  unfold re_sub_not_az09sp. induction s as [|c s IH]; [done|]. simpl.
  intros [Hc Hs]%andb_true_iff. rewrite filter_cons, decide_True by done.
  by rewrite IH.
Qed.

Lemma keep_word_tokens toks :
  forallb is_token toks = true ->
  Forall (fun w => forallb token_char w = true) (map keep_word toks) /\
  List.filter nonempty (map keep_word toks) =
  List.filter (fun t => negb (is_suffix_token t)) toks.
Proof.
  induction toks as [|x toks IH]; [done|].
  cbn [forallb]. intros [Hx Htoks]%andb_true_iff.
  destruct (IH Htoks) as [IH1 IH2].
  apply andb_true_iff in Hx as [Hne Hx].
  cbn [map List.filter].
  destruct (is_suffix_token x) eqn:Hsuf; cbn [negb].
  - assert (keep_word x = []) as -> by (unfold keep_word; by rewrite Hsuf).
    split; [by constructor|exact IH2].
  - assert (keep_word x = x) as -> by (unfold keep_word; by rewrite Hsuf).
    unfold nonempty at 1. rewrite Hne.
    split; [by constructor|by rewrite IH2].
Qed.

Lemma name_tokens_are_tokens s : forallb is_token (name_tokens s) = true.
Proof.
  unfold name_tokens, py_split. apply split_from_tokens; [|done].
  unfold re_sub_not_az09sp.
  induction (py_lower _) as [|c l IH]; [done|].
  rewrite filter_cons. case_decide as Hc; simpl; [by rewrite Hc|done].
Qed.

Lemma normalize_join toks :
  forallb is_token toks = true ->
  Bootstrap.normalize_name (py_join (lit " ") toks) =
  py_join (lit " ") (List.filter (fun t => negb (is_suffix_token t)) toks).
Proof.
  intros Htoks. unfold Bootstrap.normalize_name.
  rewrite re_sub_words_is_remove, remove_join by done.
  destruct (keep_word_tokens toks Htoks) as [Hk1 Hk2].
  destruct (join_class _ Hk1) as [Hc Hl].
  rewrite Hl, filter_class_id by done.
  rewrite split_join, Hk2; [done|].
  eapply Forall_impl; [exact Hk1|]. apply token_chars_no_space.
Qed.

Lemma split_normalized s : py_split (Bootstrap.normalize_name s) = name_tokens s.
Proof.
  change (Bootstrap.normalize_name s) with (py_join (lit " ") (name_tokens s)).
  pose proof (name_tokens_are_tokens s) as H.
  rewrite split_join.
  - induction (name_tokens s) as [|t l IH]; [done|].
    cbn [forallb] in H. apply andb_true_iff in H as [Ht Hl].
    cbn [List.filter]. unfold nonempty at 1.
    apply andb_true_iff in Ht as [-> _]. by rewrite IH.
  - apply Forall_forall. intros t Ht.
    rewrite forallb_forall in H. apply list_elem_of_In, H in Ht.
    apply andb_true_iff in Ht as [_ Ht]. by apply token_chars_no_space.
Qed.

Lemma filter_no_suffix toks :
  existsb is_suffix_token toks = false ->
  List.filter (fun t => negb (is_suffix_token t)) toks = toks.
Proof.
  induction toks as [|t toks IH]; [done|]. simpl.
  intros [-> H]%orb_false_iff. simpl. by rewrite IH.
Qed.

(** The second pass removes the words that are suffix tokens, and a third
    pass changes nothing. *)
Lemma normalize_twice s :
  Bootstrap.normalize_name (Bootstrap.normalize_name s) =
  py_join (lit " ") (List.filter (fun t => negb (is_suffix_token t)) (name_tokens s)).
Proof.
  change (Bootstrap.normalize_name s) with (py_join (lit " ") (name_tokens s)) at 1.
  apply normalize_join, name_tokens_are_tokens.
Qed.

Lemma normalize_stable_after_two s :
  Bootstrap.normalize_name (Bootstrap.normalize_name (Bootstrap.normalize_name s)) =
  Bootstrap.normalize_name (Bootstrap.normalize_name s).
Proof.
  rewrite (normalize_twice s).
  pose proof (name_tokens_are_tokens s) as H.
  induction (name_tokens s) as [|t l IH] in H |- *; [done|].
  clear IH. set (l' := List.filter _ (t :: l)).
  assert (forallb is_token l' = true) as Hl'.
  { apply forallb_forall. intros x [Hx _]%filter_In.
    rewrite forallb_forall in H. by apply H. }
  rewrite normalize_join by done. f_equal.
  subst l'. generalize (t :: l). clear.
  intros l. induction l as [|x l IH]; [done|]. simpl.
  destruct (is_suffix_token x) eqn:Hx; simpl; [done|]. by rewrite Hx, IH.
Qed.

Lemma length_join l : length (py_join (lit " ") l) = pred (joined_size l).
Proof.
  induction l as [|x l IH]; [done|].
  destruct l as [|y l]; [unfold joined_size; simpl; lia|].
  change (py_join (lit " ") (x :: y :: l))
    with (x ++ " "%char :: py_join (lit " ") (y :: l)).
  rewrite length_app. cbn [length]. rewrite IH.
  unfold joined_size. simpl. lia.
Qed.

Lemma filter_suffix_shrinks toks :
  forallb is_token toks = true -> existsb is_suffix_token toks = true ->
  joined_size (List.filter (fun t => negb (is_suffix_token t)) toks) + 2
  <= joined_size toks.
Proof.
  unfold joined_size. induction toks as [|t toks IH]; [done|].
  cbn [forallb existsb]. intros [Ht Htoks]%andb_true_iff Hex.
  cbn [List.filter]. destruct (is_suffix_token t) eqn:Hsuf; cbn [negb].
  - apply andb_true_iff in Ht as [Hne _]. destruct t as [|c t]; [done|].
    assert (forall l, list_sum (map (fun t => S (length t))
              (List.filter (fun t => negb (is_suffix_token t)) l))
            <= list_sum (map (fun t => S (length t)) l)) as Hle.
    { clear. induction l as [|x l IHl]; [done|]. simpl.
      destruct (is_suffix_token x); simpl; lia. }
    specialize (Hle toks). simpl. lia.
  - simpl in Hex. specialize (IH Htoks Hex). simpl. lia.
Qed.

(** Normalizing twice gives the normalized name exactly when none of its
    words is a suffix token. *)
Lemma normalize_name_idempotent_iff s :
  Bootstrap.normalize_name (Bootstrap.normalize_name s) = Bootstrap.normalize_name s
  <-> has_suffix_word (Bootstrap.normalize_name s) = false.
Proof.
  unfold has_suffix_word. rewrite split_normalized, normalize_twice. split.
  - intros H. apply not_true_is_false. intros Hex.
    pose proof (filter_suffix_shrinks _ (name_tokens_are_tokens s) Hex) as Hsz.
    apply (f_equal length) in H.
    change (Bootstrap.normalize_name s) with (py_join (lit " ") (name_tokens s)) in H.
    rewrite !length_join in H. lia.
  - intros H. by rewrite filter_no_suffix.
Qed.

(** C5 (as stated) fails: a name whose punctuation hides a suffix token. *)
Lemma normalize_name_not_idempotent :
  Bootstrap.normalize_name (Bootstrap.normalize_name (lit "Foo L.L.C.")) <>
  Bootstrap.normalize_name (lit "Foo L.L.C.").
Proof. vm_compute. discriminate. Qed.

(** C5 (amended). Normalizing again changes nothing when no word of the
    normalized name is one of the nine suffix tokens. *)
Theorem normalize_name_idempotent_without_suffix_word s :
  has_suffix_word (Bootstrap.normalize_name s) = false ->
  Bootstrap.normalize_name (Bootstrap.normalize_name s) = Bootstrap.normalize_name s.
Proof.
  unfold has_suffix_word. rewrite split_normalized. intros H.
  rewrite normalize_twice, filter_no_suffix by done. done.
Qed.

Lemma normalize_name_idempotent_witness :
  has_suffix_word (Bootstrap.normalize_name (lit "Adobe Systems Incorporated")) = false /\
  Bootstrap.normalize_name (Bootstrap.normalize_name (lit "Adobe Systems Incorporated")) =
  Bootstrap.normalize_name (lit "Adobe Systems Incorporated").
Proof.
  split; [reflexivity|].
  apply (normalize_name_idempotent_without_suffix_word (lit "Adobe Systems Incorporated")).
  reflexivity.
Defined.

(** C6 (as stated) fails: "Systems" is not a suffix token. *)
Lemma adobe_names_differ :
  Bootstrap.normalize_name (lit "Adobe Systems Incorporated") <>
  Bootstrap.normalize_name (lit "ADOBE INC").
Proof. vm_compute. discriminate. Qed.

(** C6 (amended). The two names of the example normalize to "adobe systems"
    and "adobe"; without the word "Systems" the example holds:
    "Adobe Incorporated" and "ADOBE INC" normalize to the same string. *)
Theorem adobe_names_normalized :
  Bootstrap.normalize_name (lit "Adobe Systems Incorporated") = lit "adobe systems" /\
  Bootstrap.normalize_name (lit "ADOBE INC") = lit "adobe" /\
  Bootstrap.normalize_name (lit "Adobe Incorporated") =
  Bootstrap.normalize_name (lit "ADOBE INC").
Proof. repeat split; vm_compute; reflexivity. Qed.

(** * [extractOne] returns the first choice of maximal score *)

Lemma lookup_map {A B} (f : A -> B) l i : map f l !! i = f <$> (l !! i).
Proof. revert i; induction l as [|x l IH]; intros [|i]; simpl; auto. Qed.

Section ExtractOne.
Variable scorer : str -> str -> Q.
Hypothesis scorer_range : forall a b, (0 <= scorer a b <= 100)%Q.
Variable query : str.

Lemma best_from_held rest : forall idx c h i,
  (100 <= h)%Q ->
  best_from scorer query rest idx (Some (c, h, i)) = Some (c, h, i).
Proof.
  induction rest as [|x rest IH]; intros idx c h i Hh; [done|].
  simpl. pose proof (scorer_range query x) as [_ Hx].
  rewrite (proj2 (Qle_bool_iff _ _)) by lra. by apply IH.
Qed.

Lemma extractOne_loop_best choices : forall idx cutoff held,
  loop_state scorer query cutoff held ->
  extractOne_loop scorer query choices idx cutoff held =
  best_from scorer query choices idx held.
Proof.
  induction choices as [|x rest IH]; intros idx cutoff held Hst; [done|].
  cbn [extractOne_loop best_from]. unfold with_cutoff.
  pose proof (scorer_range query x) as [Hx0 Hx100].
  set (s := scorer query x) in *.
  destruct held as [[[c h] i]|]; simpl in Hst.
  - destruct Hst as [-> Hh].
    pose proof (scorer_range query c) as [Hc0 Hc100]. rewrite <- Hh in Hc0, Hc100.
    destruct (Qle_bool h s) eqn:Hhs.
    + apply Qle_bool_iff in Hhs. rewrite (proj2 (Qle_bool_iff h s)) by done.
      cbn [andb]. destruct (Qle_bool s h) eqn:Hsh; cbn [negb].
      * apply Qle_bool_iff in Hsh.
        destruct (Qeq_bool s 100) eqn:H100.
        -- apply Qeq_bool_iff in H100. symmetry. apply best_from_held. lra.
        -- apply IH. by split.
      * destruct (Qeq_bool s 100) eqn:H100.
        -- apply Qeq_bool_iff in H100. symmetry. apply best_from_held. lra.
        -- apply IH. by split.
    + assert (Qle_bool s h = true) as Hsh.
      { apply Qle_bool_iff. destruct (Qlt_le_dec s h) as [Hlt|Hle]; [lra|].
        apply Qle_bool_iff in Hle. congruence. }
      rewrite Hsh.
      assert (Qle_bool h 0 && negb (Qle_bool 0 h) = false) as ->.
      { rewrite (proj2 (Qle_bool_iff 0 h)) by done. apply andb_false_r. }
      destruct (Qeq_bool 0 100) eqn:H100; [done|]. apply IH. by split.
  - subst cutoff. rewrite (proj2 (Qle_bool_iff 0 s)) by done. cbn [andb].
    rewrite (proj2 (Qle_bool_iff 0 s)) by done.
    destruct (Qeq_bool s 100) eqn:H100.
    + apply Qeq_bool_iff in H100. symmetry. apply best_from_held. lra.
    + apply IH. by split.
Qed.

Lemma extractOne_best choices :
  extractOne scorer query choices = best_from scorer query choices 0 None.
Proof. by apply extractOne_loop_best. Qed.

(** What [best_from] holds at the end: the held choice, unbeaten, or the
    first later choice of maximal score. *)
Lemma best_from_spec choices : forall idx held c s i,
  best_from scorer query choices idx held = Some (c, s, i) ->
  (held = Some (c, s, i) /\
   forall k x, choices !! k = Some x -> (scorer query x <= s)%Q) \/
  (exists j, i = idx + j /\ choices !! j = Some c /\ s = scorer query c /\
     (forall k x, choices !! k = Some x -> (scorer query x <= s)%Q) /\
     (forall k x, k < j -> choices !! k = Some x -> (scorer query x < s)%Q) /\
     match held with Some (_, h, _) => (h < s)%Q | None => True end).
Proof.
  induction choices as [|x rest IH]; intros idx held c s i Hb.
  - left. split; [done|]. intros k y Hk. by destruct k.
  - cbn [best_from] in Hb.
    assert (forall c' s' i',
      best_from scorer query rest (S idx) (Some (x, scorer query x, idx)) = Some (c', s', i') ->
      exists j, i' = idx + j /\ (x :: rest) !! j = Some c' /\ s' = scorer query c' /\
        (forall k y, (x :: rest) !! k = Some y -> (scorer query y <= s')%Q) /\
        (forall k y, k < j -> (x :: rest) !! k = Some y -> (scorer query y < s')%Q) /\
        (scorer query x <= s')%Q) as Hnew.
    { intros c' s' i' Hb'. apply IH in Hb' as [[Heq Hmax]|(j & -> & Hj & -> & Hmax & Hfirst & Hlt)].
      - injection Heq as <- <- <-. exists 0. split; [lia|]. split; [done|]. split; [done|].
        split; [|split; [intros; lia|lra]].
        intros [|k] y Hk; simpl in Hk; [injection Hk as <-; lra|by eapply Hmax].
      - exists (S j). split; [lia|]. split; [done|]. split; [done|].
        split; [|split; [|lra]].
        + intros [|k] y Hk; simpl in Hk; [injection Hk as <-; lra|by eapply Hmax].
        + intros [|k] y Hk Hy; simpl in Hy; [injection Hy as <-; lra|].
          eapply Hfirst; [|done]. lia. }
    destruct held as [[[c0 h] i0]|].
    + destruct (Qle_bool (scorer query x) h) eqn:Hxh.
      * apply Qle_bool_iff in Hxh.
        apply IH in Hb as [[Heq Hmax]|(j & -> & Hj & -> & Hmax & Hfirst & Hlt)].
        -- left. split; [done|]. injection Heq as <- <- <-.
           intros [|k] y Hk; simpl in Hk; [by injection Hk as <-|by eapply Hmax].
        -- right. exists (S j). split; [lia|]. split; [done|]. split; [done|].
           split; [|split; [|done]].
           ++ intros [|k] y Hk; simpl in Hk; [injection Hk as <-; lra|by eapply Hmax].
           ++ intros [|k] y Hk Hy; simpl in Hy; [injection Hy as <-; lra|].
              eapply Hfirst; [|done]. lia.
      * assert (h < scorer query x)%Q as Hlt.
        { apply Qnot_le_lt. intros Hle. apply Qle_bool_iff in Hle. congruence. }
        right. apply Hnew in Hb as (j & -> & Hj & -> & Hmax & Hfirst & Hge).
        exists j. repeat split; try done. lra.
    + right. apply Hnew in Hb as (j & -> & Hj & -> & Hmax & Hfirst & Hge).
      exists j. repeat split; done.
Qed.

Lemma best_from_some choices : forall idx c h i,
  exists r, best_from scorer query choices idx (Some (c, h, i)) = Some r.
Proof.
  induction choices as [|x rest IH]; intros idx c h i; [by eexists|].
  simpl. destruct (Qle_bool (scorer query x) h); apply IH.
Qed.

(** [extractOne] on no choice returns [None]; otherwise it returns the
    first choice of maximal score, with that score and its index. *)
Lemma extractOne_nil : extractOne scorer query [] = None.
Proof. done. Qed.

Lemma extractOne_first_max choices :
  choices <> [] ->
  exists c s i,
    extractOne scorer query choices = Some (c, s, i) /\
    choices !! i = Some c /\
    first_max (map (scorer query) choices) i s.
Proof.
  intros Hne. rewrite extractOne_best.
  destruct choices as [|x rest]; [done|].
  destruct (best_from_some rest 1 x (scorer query x) 0) as [[[c s] i] Hr].
  exists c, s, i. split; [exact Hr|].
  change (best_from scorer query rest 1 (Some (x, scorer query x, 0)))
    with (best_from scorer query (x :: rest) 0 None) in Hr.
  apply best_from_spec in Hr as [[? _]|(j & -> & Hj & -> & Hmax & Hfirst & _)]; [done|].
  cbn [Nat.add]. split; [done|]. split; [by rewrite lookup_map, Hj|]. split.
  - intros k t Hk. rewrite lookup_map in Hk.
    destruct ((x :: rest) !! k) as [y|] eqn:Hy; [|done].
    injection Hk as <-. by eapply Hmax.
  - intros k t Hlt Hk. rewrite lookup_map in Hk.
    destruct ((x :: rest) !! k) as [y|] eqn:Hy; [|done].
    injection Hk as <-. by eapply Hfirst.
Qed.

Lemma first_max_unique scores i s i' s' :
  first_max scores i s -> first_max scores i' s' -> i = i' /\ s = s'.
Proof.
  intros (Hi & Hmax & Hfirst) (Hi' & Hmax' & Hfirst').
  assert (i = i') as <-.
  { destruct (Nat.lt_trichotomy i i') as [Hlt|[Heq|Hgt]]; [|done|].
    - pose proof (Hfirst' _ _ Hlt Hi). pose proof (Hmax _ _ Hi'). lra.
    - pose proof (Hfirst _ _ Hgt Hi'). pose proof (Hmax' _ _ Hi). lra. }
  split; [done|congruence].
Qed.
End ExtractOne.

(** * Builtins used by the resolver *)

Lemma to_uint_nonnil n : N.to_uint n <> Decimal.Nil.
Proof. destruct n as [|p]; [done|]. apply DecimalPos.Unsigned.to_uint_nonnil. Qed.

Lemma py_str_inj n m : py_str n = py_str m -> n = m.
Proof.
  unfold py_str. intros H.
  apply (f_equal string_of_list_ascii) in H.
  rewrite !string_of_list_ascii_of_string in H.
  apply (f_equal NilZero.uint_of_string) in H.
  rewrite !NilZero.usu in H by apply to_uint_nonnil. injection H as H.
  by apply DecimalN.Unsigned.to_uint_inj.
Qed.

Lemma dict_get_by_index {V} (d : list (str * V)) : forall off i kv,
  map fst d = map (fun i => py_str (N.of_nat i)) (seq off (length d)) ->
  d !! i = Some kv ->
  dict_get d (py_str (N.of_nat (off + i))) = Some kv.2.
Proof.
  induction d as [|[k v] d IH]; intros off i kv Hkeys Hi; [done|].
  simpl in Hkeys. injection Hkeys as -> Hkeys.
  destruct i as [|i]; simpl in Hi.
  - injection Hi as <-. simpl. rewrite Nat.add_0_r.
    by rewrite bool_decide_eq_true_2.
  - simpl. rewrite bool_decide_eq_false_2.
    + replace (off + S i) with (S off + i) by lia. by apply IH.
    + intros E%py_str_inj. lia.
Qed.

Lemma starts_with_spec p s : starts_with p s = true <-> exists b, s = p ++ b.
Proof.
  revert s; induction p as [|a p IH]; intros s; simpl.
  - split; [by exists s|done].
  - destruct s as [|c s]; [split; [done|by intros [? ?]]|].
    rewrite andb_true_iff, bool_decide_eq_true, IH. split.
    + intros [-> [b ->]]. by exists b.
    + intros [b Hb]. injection Hb as -> ->. eauto.
Qed.

Lemma py_in_spec sub s : py_in sub s = true <-> is_substring sub s.
Proof.
  unfold is_substring. induction s as [|c s IH]; simpl.
  - rewrite orb_false_r, starts_with_spec. split.
    + intros [b Hb]. by exists [], b.
    + intros (a & b & H). destruct a; [by exists b|done].
  - rewrite orb_true_iff, starts_with_spec, IH. split.
    + intros [[b Hb]|(a & b & ->)]; [by exists [], b|by exists (c :: a), b].
    + intros ([|x a] & b & H); [left; by exists b|right].
      injection H as -> ->. by exists a, b.
Qed.

Lemma find_first {A} (f : A -> bool) pre v post :
  Forall (fun u => f u = false) pre -> f v = true ->
  find f (pre ++ v :: post) = Some v.
Proof.
  induction 1 as [|u pre Hu _ IH]; intros Hv; simpl; [by rewrite Hv|].
  rewrite Hu. by apply IH.
Qed.

Lemma find_none_all {A} (f : A -> bool) l :
  Forall (fun u => f u = false) l -> find f l = None.
Proof. induction 1 as [|u l Hu _ IH]; simpl; [done|]. by rewrite Hu. Qed.

(** * The resolver of the bootstrap script

    The theorems of this section hold for any scorer with values in 0..100,
    the range of [fuzz.token_sort_ratio]. *)

Section Resolution.
Variable scorer : str -> str -> Q.
Hypothesis scorer_range : forall a b, (0 <= scorer a b <= 100)%Q.

Lemma get_cik_ranking company_name mapping :
  mapping <> [] ->
  exists best s i,
    extractOne scorer (Bootstrap.normalize_name company_name)
      (map fst (map (fun kv => (Bootstrap.normalize_name (title kv.2), kv.1)) mapping))
    = Some (best, s, i) /\
    first_max (registry_scores scorer company_name mapping) i s.
Proof.
  intros Hne.
  destruct (extractOne_first_max scorer scorer_range
              (Bootstrap.normalize_name company_name)
              (map fst (map (fun kv => (Bootstrap.normalize_name (title kv.2), kv.1)) mapping)))
    as (c & s & i & He & _ & Hmax).
  { by destruct mapping. }
  exists c, s, i. split; [done|].
  unfold registry_scores. by rewrite !map_map in Hmax.
Qed.

(** C1. When the maximal score is at least 85 and [i] is the first
    position that has it, [get_cik] does not return the identifier of the
    entry at position [i]: it looks up the key [str(i)], the position in
    the list of choices taken for a key of the registry, and returns the
    identifier of whatever entry has that key, or raises KeyError when no
    entry has it. *)
Theorem get_cik_looks_up_position company_name mapping i s :
  first_max (registry_scores scorer company_name mapping) i s ->
  (85 <= s)%Q ->
  Bootstrap.get_cik scorer company_name mapping =
  match dict_get mapping (py_str (N.of_nat i)) with
  | Some v => Returns (zfill 10 (py_str (cik_str v)))
  | None => Raises (KeyError (py_str (N.of_nat i)))
  end.
Proof.
  intros Hmax H85.
  assert (mapping <> []) as Hne by (intros ->; by destruct Hmax).
  destruct (get_cik_ranking company_name mapping Hne) as (best & s' & i' & He & Hmax').
  destruct (first_max_unique _ _ _ _ _ Hmax Hmax') as [<- <-].
  unfold Bootstrap.get_cik. rewrite He.
  by rewrite (proj2 (Qle_bool_iff _ _)) by done.
Qed.

(** X18. On a registry keyed as [company_tickers.json] is (the key of the
    i-th entry is [str(i)]) the key looked up is that of the best entry:
    when the maximal score is at least 85, [get_cik] returns the
    identifier, zero-padded to 10 digits, of the first entry that has the
    maximal score. *)
Theorem get_cik_fuzzy_match company_name mapping i v s :
  index_keyed mapping ->
  map snd mapping !! i = Some v ->
  first_max (registry_scores scorer company_name mapping) i s ->
  (85 <= s)%Q ->
  Bootstrap.get_cik scorer company_name mapping =
  Returns (zfill 10 (py_str (cik_str v))).
Proof.
  intros Hkeys Hv Hmax H85.
  assert (mapping <> []) as Hne by (intros ->; done).
  destruct (get_cik_ranking company_name mapping Hne) as (best & s' & i' & He & Hmax').
  destruct (first_max_unique _ _ _ _ _ Hmax Hmax') as [<- <-].
  unfold Bootstrap.get_cik. rewrite He.
  rewrite (proj2 (Qle_bool_iff _ _)) by done.
  rewrite lookup_map in Hv.
  destruct (mapping !! i) as [kv|] eqn:Hkv; [|done]. injection Hv as <-.
  pose proof (dict_get_by_index mapping 0 i kv Hkeys Hkv) as Hd.
  cbn [Nat.add] in Hd. by rewrite Hd.
Qed.

(** C2. When no normalized title scores 85 against the normalized name
    and some normalized title contains the normalized name, [get_cik]
    returns the zero-padded identifier of the first such entry. *)
Theorem get_cik_substring_fallback company_name mapping before v after :
  (forall t, t ∈ registry_scores scorer company_name mapping -> (t < 85)%Q) ->
  map snd mapping = before ++ v :: after ->
  is_substring (Bootstrap.normalize_name company_name)
               (Bootstrap.normalize_name (title v)) ->
  (forall u, u ∈ before ->
     ~ is_substring (Bootstrap.normalize_name company_name)
                    (Bootstrap.normalize_name (title u))) ->
  Bootstrap.get_cik scorer company_name mapping =
  Returns (zfill 10 (py_str (cik_str v))).
Proof.
  intros Hlow Hsplit Hv Hbefore.
  assert (mapping <> []) as Hne by (intros ->; by destruct before).
  destruct (get_cik_ranking company_name mapping Hne) as (best & s & i & He & Hi & _).
  unfold Bootstrap.get_cik. rewrite He.
  assert (Qle_bool 85 s = false) as ->.
  { apply not_true_is_false. intros H%Qle_bool_iff.
    pose proof (Hlow s (list_elem_of_lookup_2 _ _ _ Hi)). lra. }
  rewrite Hsplit, find_first; [done| |by apply py_in_spec].
  apply Forall_forall. intros u Hu. apply not_true_is_false.
  intros H%py_in_spec. by apply (Hbefore u).
Qed.

(** C3. On a non-empty registry, when no normalized title scores 85 and
    none contains the normalized name, [get_cik] fails with the not-found
    error, and the score it carries is the maximum of the scores of the
    registry entries. *)
Theorem get_cik_not_found company_name mapping :
  mapping <> [] ->
  (forall t, t ∈ registry_scores scorer company_name mapping -> (t < 85)%Q) ->
  (forall kv, kv ∈ mapping ->
     ~ is_substring (Bootstrap.normalize_name company_name)
                    (Bootstrap.normalize_name (title kv.2))) ->
  exists s i,
    Bootstrap.get_cik scorer company_name mapping =
    Raises (ValueError_CIK_not_found s) /\
    first_max (registry_scores scorer company_name mapping) i s.
Proof.
  intros Hne Hlow Hnone.
  destruct (get_cik_ranking company_name mapping Hne) as (best & s & i & He & Hmax).
  exists s, i. split; [|done].
  unfold Bootstrap.get_cik. rewrite He.
  assert (Qle_bool 85 s = false) as ->.
  { apply not_true_is_false. intros H%Qle_bool_iff.
    destruct Hmax as [Hi _].
    pose proof (Hlow s (list_elem_of_lookup_2 _ _ _ Hi)). lra. }
  rewrite find_none_all; [done|].
  apply Forall_forall. intros u Hu. apply not_true_is_false.
  intros H%py_in_spec.
  apply list_elem_of_In, in_map_iff in Hu as (kv & <- & Hkv).
  apply (Hnone kv); [by apply list_elem_of_In|done].
Qed.

(** X19. On the empty registry [get_cik] raises the TypeError of
    unpacking [None].  On a non-empty registry keyed as
    [company_tickers.json] is, it returns the zero-padded identifier of an
    entry or fails with the not-found error, which carries the maximal
    score: it never raises KeyError there. *)
Theorem get_cik_outcomes company_name mapping :
  index_keyed mapping ->
  match mapping with
  | [] => Bootstrap.get_cik scorer company_name mapping = Raises TypeError_unpack_None
  | _ =>
      (exists kv, kv ∈ mapping /\
         Bootstrap.get_cik scorer company_name mapping =
         Returns (zfill 10 (py_str (cik_str kv.2)))) \/
      (exists s i,
         Bootstrap.get_cik scorer company_name mapping =
         Raises (ValueError_CIK_not_found s) /\
         first_max (registry_scores scorer company_name mapping) i s)
  end.
Proof.
  intros Hkeys. destruct mapping as [|kv0 mapping']; [done|].
  set (mapping := kv0 :: mapping') in *.
  destruct (get_cik_ranking company_name mapping ltac:(done))
    as (best & s & i & He & Hmax).
  pose proof (proj1 Hmax) as Hi.
  unfold Bootstrap.get_cik. rewrite He.
  destruct (Qle_bool 85 s).
  - left. unfold registry_scores in Hi. rewrite lookup_map in Hi.
    destruct (mapping !! i) as [kv|] eqn:Hkv; [|done].
    exists kv. split; [by eapply list_elem_of_lookup_2|].
    pose proof (dict_get_by_index mapping 0 i kv Hkeys Hkv) as Hd.
    cbn [Nat.add] in Hd. by rewrite Hd.
  - destruct (find _ _) as [v|] eqn:Hf; [left|right; by exists s, i].
    apply find_some in Hf as [Hin _].
    apply in_map_iff in Hin as (kv & <- & Hkv).
    exists kv. split; [by apply list_elem_of_In|done].
Qed.
End Resolution.

(** * The model of [token_sort_ratio] has its values in 0..100 *)

Lemma lcs_row_bound x n : forall b above diag left j,
  length above = length b ->
  (forall k v, above !! k = Some v -> v <= j + 1 + k /\ v <= n) ->
  diag <= j -> diag <= n -> left <= j -> left <= S n ->
  length (lcs_row x b above diag left) = length b /\
  forall k v, lcs_row x b above diag left !! k = Some v -> v <= j + 1 + k /\ v <= S n.
Proof.
  induction b as [|y b IH]; intros above diag left j Hlen Habove Hd1 Hd2 Hl1 Hl2.
  - split; [done|]. by intros [|k] v.
  - destruct above as [|up above]; [done|]. simpl in Hlen.
    destruct (Habove 0 up eq_refl) as [Hu1 Hu2].
    cbn [lcs_row].
    set (cur := if bool_decide (x = y) then S diag else Nat.max up left).
    assert (cur <= j + 1 /\ cur <= S n) as [Hc1 Hc2]
      by (subst cur; case_bool_decide; lia).
    destruct (IH above up cur (j + 1)) as [IHlen IHrow]; try lia.
    { intros k v Hk. destruct (Habove (S k) v Hk). lia. }
    split; [simpl; lia|].
    intros [|k] v Hk; simpl in Hk.
    + injection Hk as <-. lia.
    + destruct (IHrow k v Hk). lia.
Qed.

Lemma lcs_table_bound b : forall a row n,
  length row = S (length b) ->
  (forall k v, row !! k = Some v -> v <= k /\ v <= n) ->
  let row' := foldl (fun row x => 0 :: lcs_row x b (tail row) 0 0) row a in
  length row' = S (length b) /\
  forall k v, row' !! k = Some v -> v <= k /\ v <= n + length a.
Proof.
  induction a as [|x a IH]; intros row n Hlen Hrow; simpl.
  - split; [done|]. intros k v Hk. destruct (Hrow k v Hk). lia.
  - destruct row as [|r0 row]; [done|]. simpl in Hlen.
    destruct (lcs_row_bound x n b row 0 0 0) as [Hl Hr]; try lia.
    { intros k v Hk. destruct (Hrow (S k) v Hk). lia. }
    destruct (IH (0 :: lcs_row x b row 0 0) (S n)) as [IHl IHr].
    { simpl. lia. }
    { intros [|k] v Hk; simpl in Hk; [injection Hk as <-; lia|].
      destruct (Hr k v Hk). lia. }
    split; [done|]. intros k v Hk. destruct (IHr k v Hk). lia.
Qed.

Lemma last_bound (P : nat -> Prop) l d :
  P d -> Forall P l -> P (List.last l d).
Proof.
  intros Hd. induction 1 as [|x l Hx Hl IH]; [done|].
  destruct l; [done|]. exact IH.
Qed.

Lemma lcs_bound a b : lcs a b <= length a /\ lcs a b <= length b.
Proof.
  unfold lcs, lcs_table.
  destruct (lcs_table_bound b a (repeat 0 (S (length b))) 0) as [Hl Hr].
  { by rewrite repeat_length. }
  { intros k v Hk. apply list_elem_of_lookup_2, list_elem_of_In, repeat_spec in Hk. lia. }
  apply (last_bound (fun v => v <= length a /\ v <= length b)); [lia|].
  apply Forall_forall. intros v Hv.
  apply list_elem_of_lookup_1 in Hv as [k Hk].
  destruct (Hr k v Hk). apply lookup_lt_Some in Hk. lia.
Qed.

Lemma ratio_range a b : (0 <= ratio a b <= 100)%Q.
Proof.
  unfold ratio. destruct (length a + length b) as [|n] eqn:Hn; [lra|].
  destruct (lcs_bound a b). unfold Qle. simpl. lia.
Qed.

Lemma token_sort_ratio_range a b : (0 <= token_sort_ratio a b <= 100)%Q.
Proof. apply ratio_range. Qed.

(** * The resolver on the sample registries *)

Ltac q_compare := vm_compute; first [reflexivity | intros ?; discriminate].

Lemma sample_first_max company_name mapping s :
  length mapping = 2 ->
  registry_scores token_sort_ratio company_name mapping !! 1 = Some s ->
  (forall t, registry_scores token_sort_ratio company_name mapping !! 0 = Some t -> (t < s)%Q) ->
  first_max (registry_scores token_sort_ratio company_name mapping) 1 s.
Proof.
  intros Hlen H1 H0. split; [done|]. split.
  - intros [|[|k]] t Hk.
    + apply Qlt_le_weak. by apply H0.
    + rewrite H1 in Hk. injection Hk as <-. apply Qle_refl.
    + apply lookup_lt_Some in Hk. unfold registry_scores in Hk.
      rewrite length_map in Hk. lia.
  - intros [|k] t Hlt Hk; [by apply H0|lia].
Qed.

(** On the registry of the specification's scenarios, keyed by identifier,
    "Microsoft Corp" has the maximal score 100 on the second entry, and
    [get_cik] looks up the key "1": the identifier of the entry of maximal
    score is not returned for every registry. *)
Lemma get_cik_fuzzy_match_not_for_every_registry :
  ~ (forall company_name (mapping : registry) i v s,
       mapping <> [] ->
       map snd mapping !! i = Some v ->
       first_max (registry_scores token_sort_ratio company_name mapping) i s ->
       (85 <= s)%Q ->
       Bootstrap.get_cik token_sort_ratio company_name mapping =
       Returns (zfill 10 (py_str (cik_str v)))).
Proof.
  intros H.
  specialize (H (lit "Microsoft Corp") cik_keyed_registry 1
                (company "0000789019" 789019 "Microsoft Corporation").2 (1800 # 18)%Q).
  assert (Bootstrap.get_cik token_sort_ratio (lit "Microsoft Corp") cik_keyed_registry =
          Raises (KeyError (lit "1"))) as Hk by (vm_compute; reflexivity).
  rewrite Hk in H. discriminate H; [done|done| |q_compare].
  apply sample_first_max; [done|vm_compute; reflexivity|].
  intros t Ht. vm_compute in Ht. injection Ht as <-. q_compare.
Qed.

(** Under the keys "1" and "2" the look-up of the position finds another
    company: "Microsoft Corp" has the maximal score 100 at position 1, the
    entry of Microsoft, and [get_cik] returns the identifier of the entry
    under the key "1", Apple. *)
Lemma get_cik_looks_up_position_witness :
  Bootstrap.get_cik token_sort_ratio (lit "Microsoft Corp") shifted_registry =
  Returns (lit "0000320193").
Proof.
  rewrite (get_cik_looks_up_position token_sort_ratio token_sort_ratio_range
             (lit "Microsoft Corp") shifted_registry 1 (1800 # 18)%Q).
  - reflexivity.
  - apply sample_first_max; [reflexivity|vm_compute; reflexivity|].
    intros t Ht. vm_compute in Ht. injection Ht as <-. q_compare.
  - q_compare.
Defined.

Lemma get_cik_fuzzy_match_witness :
  Bootstrap.get_cik token_sort_ratio (lit "Microsoft Corp") sec_registry =
  Returns (lit "0000789019").
Proof.
  apply (get_cik_fuzzy_match token_sort_ratio token_sort_ratio_range
           (lit "Microsoft Corp") sec_registry 1
           (company "1" 789019 "Microsoft Corporation").2 (1800 # 18)%Q).
  - reflexivity.
  - reflexivity.
  - apply sample_first_max; [reflexivity|vm_compute; reflexivity|].
    intros t Ht. vm_compute in Ht. injection Ht as <-. q_compare.
  - q_compare.
Defined.

Lemma not_substring sub s : py_in sub s = false -> ~ is_substring sub s.
Proof. intros H Hs%py_in_spec. congruence. Qed.

Lemma get_cik_substring_fallback_witness :
  Bootstrap.get_cik token_sort_ratio (lit "Micro") sec_registry =
  Returns (lit "0000789019").
Proof.
  apply (get_cik_substring_fallback token_sort_ratio token_sort_ratio_range
           (lit "Micro") sec_registry
           [(company "0" 320193 "Apple Inc.").2]
           (company "1" 789019 "Microsoft Corporation").2 []).
  - intros t Ht. vm_compute in Ht.
    apply list_elem_of_In in Ht. destruct Ht as [<-|[<-|[]]]; q_compare.
  - reflexivity.
  - apply py_in_spec. vm_compute. reflexivity.
  - intros u Hu. apply list_elem_of_In in Hu. destruct Hu as [<-|[]].
    apply not_substring. vm_compute. reflexivity.
Defined.

Lemma get_cik_not_found_witness :
  exists s i,
    Bootstrap.get_cik token_sort_ratio (lit "NoSuchCompany XYZ") sec_registry =
    Raises (ValueError_CIK_not_found s) /\
    first_max (registry_scores token_sort_ratio (lit "NoSuchCompany XYZ") sec_registry) i s.
Proof.
  apply (get_cik_not_found token_sort_ratio token_sort_ratio_range
           (lit "NoSuchCompany XYZ") sec_registry).
  - discriminate.
  - intros t Ht. vm_compute in Ht.
    apply list_elem_of_In in Ht. destruct Ht as [<-|[<-|[]]]; q_compare.
  - intros kv Hkv. apply list_elem_of_In in Hkv.
    destruct Hkv as [<-|[<-|[]]]; apply not_substring; vm_compute; reflexivity.
Defined.

(** C10. On the empty registry [get_cik] raises the TypeError of
    unpacking [None], whatever the name.  On the registry of the
    specification's scenarios, which is not empty, the call for "Apple Inc"
    raises KeyError: the score is 100 at position 0 and no entry has the
    key "0"; the call neither returns an identifier nor fails with the
    not-found error. *)
Theorem get_cik_key_error_on_scenario_registry :
  (forall name, Bootstrap.get_cik token_sort_ratio name [] = Raises TypeError_unpack_None) /\
  cik_keyed_registry <> [] /\
  Bootstrap.get_cik token_sort_ratio (lit "Apple Inc") cik_keyed_registry =
  Raises (KeyError (lit "0")).
Proof. split; [done|]. split; [done|]. vm_compute. reflexivity. Qed.

(** Not every call on a non-empty registry returns or fails with the
    not-found error. *)
Lemma get_cik_outcomes_not_for_every_registry :
  ~ (forall company_name (mapping : registry),
       mapping <> [] ->
       (exists cik, Bootstrap.get_cik token_sort_ratio company_name mapping = Returns cik) \/
       (exists s, Bootstrap.get_cik token_sort_ratio company_name mapping =
                  Raises (ValueError_CIK_not_found s))).
Proof.
  intros H.
  destruct (H (lit "Apple Inc") cik_keyed_registry ltac:(done)) as [[cik Hc]|[s Hs]].
  - vm_compute in Hc. discriminate.
  - vm_compute in Hs. discriminate.
Qed.

Lemma get_cik_outcomes_witness :
  (exists kv, kv ∈ sec_registry /\
     Bootstrap.get_cik token_sort_ratio (lit "Apple") sec_registry =
     Returns (zfill 10 (py_str (cik_str kv.2)))) \/
  (exists s i,
     Bootstrap.get_cik token_sort_ratio (lit "Apple") sec_registry =
     Raises (ValueError_CIK_not_found s) /\
     first_max (registry_scores token_sort_ratio (lit "Apple") sec_registry) i s).
Proof.
  apply (get_cik_outcomes token_sort_ratio token_sort_ratio_range (lit "Apple") sec_registry).
  reflexivity.
Defined.

(** * The two resolvers *)

Lemma extractOne_loop_index scorer query choices : forall idx cutoff held c s i,
  extractOne_loop scorer query choices idx cutoff held = Some (c, s, i) ->
  held = Some (c, s, i) \/ exists j, i = idx + j /\ choices !! j = Some c.
Proof.
  induction choices as [|x rest IH]; intros idx cutoff held c s i H; [by left|].
  cbn [extractOne_loop] in H.
  set (score := with_cutoff scorer cutoff query x) in *.
  set (better := Qle_bool cutoff score && _) in *.
  assert ((if better then Some (x, score, idx) else held) = Some (c, s, i) ->
          held = Some (c, s, i) \/ exists j, i = idx + j /\ (x :: rest) !! j = Some c) as Hres.
  { destruct better; [|by left]. intros [= <- <- <-]. right. exists 0. split; [lia|done]. }
  destruct (Qeq_bool score 100); [by apply Hres|].
  apply IH in H as [H|(j & -> & Hj)]; [by apply Hres|].
  right. exists (S j). split; [lia|done].
Qed.

Lemma extractOne_index scorer query choices c s i :
  extractOne scorer query choices = Some (c, s, i) -> choices !! i = Some c.
Proof.
  intros H. apply extractOne_loop_index in H as [H|(j & -> & Hj)]; done.
Qed.

Lemma filter_unique_title (l : list entry) : forall i v,
  NoDup (map title l) -> l !! i = Some v ->
  List.filter (fun u => bool_decide (title u = title v)) l = [v].
Proof.
  induction l as [|x l IH]; intros i v Hnd Hi; [done|].
  simpl in Hnd. apply NoDup_cons in Hnd as [Hx Hnd].
  destruct i as [|i]; simpl in Hi.
  - injection Hi as <-. simpl. rewrite bool_decide_eq_true_2 by done. f_equal.
    clear IH Hnd. induction l as [|y l IHl]; [done|]. simpl.
    rewrite bool_decide_eq_false_2.
    + apply IHl. intros H. apply Hx. simpl. by right.
    + intros E. apply Hx. simpl. rewrite E. by left.
  - simpl. rewrite bool_decide_eq_false_2; [by eapply IH|].
    intros E. apply Hx. rewrite E.
    apply list_elem_of_In, in_map, list_elem_of_In. by eapply list_elem_of_lookup_2.
Qed.

Lemma normalized_is_lowercase s :
  py_lower (Bootstrap.normalize_name s) = Bootstrap.normalize_name s.
Proof.
  change (Bootstrap.normalize_name s) with (py_join (lit " ") (name_tokens s)).
  apply join_class. apply Forall_forall. intros t Ht.
  pose proof (name_tokens_are_tokens s) as H. rewrite forallb_forall in H.
  apply list_elem_of_In, H in Ht. by apply andb_true_iff in Ht as [_ Ht].
Qed.

(** C7. The two routines do not implement one contract: on the registry
    of the SEC layout the bootstrap resolver finds "Apple" (the normalized
    title is "apple", the score 100), and the daily-update resolver, which
    compares the raw strings and has no substring fallback, fails with the
    not-found error (the raw title "Apple Inc." scores 66.7). *)
Theorem resolvers_differ_on_apple :
  Bootstrap.get_cik token_sort_ratio (lit "Apple") sec_registry =
  Returns (lit "0000320193") /\
  DailyUpdate.get_cik token_sort_ratio (lit "Apple") sec_registry =
  Raises (ValueError_CIK_not_found (1000 # 15)).
Proof. split; vm_compute; reflexivity. Qed.

(** The two resolvers do not agree on every name and registry. *)
Lemma resolvers_differ :
  ~ (forall name (mapping : registry),
       same_resolution (Bootstrap.get_cik token_sort_ratio name mapping)
                       (DailyUpdate.get_cik token_sort_ratio name mapping)).
Proof.
  intros H. specialize (H (lit "Apple") sec_registry).
  vm_compute in H. exact H.
Qed.

(** Where the two resolvers do agree: they give the same outcome (the
    same identifier, or the same error with the same best score) on a
    registry keyed as [company_tickers.json] is, with pairwise distinct
    titles, when the name and every title are already in normalized form
    and no title contains the name. *)
Lemma resolvers_agree_on_normalized scorer name (mapping : registry) :
  index_keyed mapping ->
  NoDup (map title (map snd mapping)) ->
  Bootstrap.normalize_name name = name ->
  (forall kv, kv ∈ mapping -> Bootstrap.normalize_name (title kv.2) = title kv.2) ->
  (forall kv, kv ∈ mapping -> ~ is_substring name (title kv.2)) ->
  Bootstrap.get_cik scorer name mapping = DailyUpdate.get_cik scorer name mapping.
Proof.
  intros Hkeys Hnd Hname Htitles Hnone.
  unfold Bootstrap.get_cik, DailyUpdate.get_cik. rewrite Hname.
  assert (map fst (map (fun kv : str * entry => (Bootstrap.normalize_name (title kv.2), kv.1)) mapping)
          = map (fun v => title v) (map snd mapping)) as ->.
  { rewrite !map_map. apply map_ext_in. intros kv Hkv. simpl.
    by apply Htitles, list_elem_of_In. }
  rewrite (find_none_all (fun v => bool_decide (py_lower (title v) = py_lower name))).
  2:{ apply Forall_forall. intros v Hv. apply bool_decide_eq_false. intros E.
      apply list_elem_of_In, in_map_iff in Hv as (kv & <- & Hkv).
      apply list_elem_of_In in Hkv.
      rewrite <- (Htitles kv Hkv), <- Hname, !normalized_is_lowercase in E.
      rewrite (Htitles kv Hkv), Hname in E.
      apply (Hnone kv Hkv). exists [], []. by rewrite app_nil_r, E. }
  destruct (extractOne _ _ _) as [[[best s] i]|] eqn:He; [|done].
  apply extractOne_index in He. rewrite !lookup_map in He.
  destruct (mapping !! i) as [kv|] eqn:Hkv; [|done]. simpl in He. injection He as <-.
  destruct (Qle_bool 85 s).
  - pose proof (dict_get_by_index mapping 0 i kv Hkeys Hkv) as Hd.
    cbn [Nat.add] in Hd. rewrite Hd.
    rewrite (filter_unique_title (map snd mapping) i kv.2); [done|done|].
    by rewrite lookup_map, Hkv.
  - rewrite find_none_all; [done|].
    apply Forall_forall. intros v Hv. apply not_true_is_false. intros E%py_in_spec.
    apply list_elem_of_In, in_map_iff in Hv as (kv' & <- & Hkv').
    apply list_elem_of_In in Hkv'. rewrite (Htitles kv' Hkv') in E.
    by apply (Hnone kv' Hkv').
Qed.

Lemma resolvers_agree_witness :
  Bootstrap.get_cik token_sort_ratio (lit "microsft") plain_registry =
  DailyUpdate.get_cik token_sort_ratio (lit "microsft") plain_registry.
Proof.
  apply (resolvers_agree_on_normalized token_sort_ratio (lit "microsft") plain_registry).
  - reflexivity.
  - apply (bool_decide_unpack _). vm_compute. exact I.
  - reflexivity.
  - intros kv Hkv. apply list_elem_of_In in Hkv.
    destruct Hkv as [<-|[<-|[]]]; reflexivity.
  - intros kv Hkv. apply list_elem_of_In in Hkv.
    destruct Hkv as [<-|[<-|[]]]; apply not_substring; reflexivity.
Defined.

(** * Financial facts *)

Lemma build_dict_keys {V} (f : str -> outcome V) l : forall d,
  build_dict f l = Returns d -> map fst d = map fst l.
Proof.
  induction l as [|[k c] l IH]; intros d H; simpl in H.
  - by injection H as <-.
  - destruct (f c) as [v|]; [|done]. simpl in H.
    destruct (build_dict f l) as [d'|]; [|done]. simpl in H.
    injection H as <-. simpl. f_equal. by apply IH.
Qed.

Lemma build_dict_values {V} (f : str -> outcome V) l : forall d k v,
  build_dict f l = Returns d -> (k, v) ∈ d ->
  exists c, (k, c) ∈ l /\ f c = Returns v.
Proof.
  induction l as [|[k0 c0] l IH]; intros d k v H Hin; simpl in H.
  - injection H as <-. by apply elem_of_nil in Hin.
  - destruct (f c0) as [v0|] eqn:Hf; [|done]. simpl in H.
    destruct (build_dict f l) as [d'|]; [|done]. simpl in H.
    injection H as <-. apply elem_of_cons in Hin as [[= -> ->]|Hin].
    + exists c0. split; [left|done].
    + destruct (IH d' k v eq_refl Hin) as (c & Hc & Hfc).
      exists c. split; [by right|done].
Qed.

Lemma pick_items_window cutoff items : forall obs,
  Bootstrap.pick_items cutoff items = Returns obs ->
  Forall (fun o => (cutoff <= year o)%Z) obs.
Proof.
  induction items as [|i items IH]; intros obs H; simpl in H.
  - injection H as <-. constructor.
  - destruct (end_year i) as [y|]; [|done]. simpl in H.
    destruct (cutoff <=? y)%Z eqn:Hy; [|by apply IH].
    destruct (Bootstrap.pick_items cutoff items) as [rest|]; [|done]. simpl in H.
    injection H as <-. constructor; [simpl; lia|by apply IH].
Qed.

(** The bootstrap extraction has the six metric keys and keeps to the
    window. *)
Lemma extract_facts_window today_year facts d :
  Bootstrap.extract_facts today_year facts = Returns d ->
  map fst d = metric_names /\
  forall k obs o, (k, obs) ∈ d -> o ∈ obs -> (today_year - 5 <= year o)%Z.
Proof.
  intros H. split; [by apply build_dict_keys in H|].
  intros k obs o Hk Ho.
  destruct (build_dict_values _ _ _ _ _ H Hk) as (c & _ & Hc).
  apply pick_items_window in Hc. rewrite Forall_forall in Hc. by apply Hc.
Qed.

(** C8, at the failing input: for a payload that has a revenue of 2001 and
    one of 2024, in 2025, [extract_facts] keeps the observation of 2024
    only, and [latest_years] returns both: it has no window. *)
Theorem latest_years_has_no_window :
  Bootstrap.extract_facts 2025 sample_facts =
  Returns [ (lit "Revenue", [ {| year := 2024; val := 7 |} ]);
            (lit "NetIncome", []); (lit "OperatingCashFlow", []);
            (lit "Assets", []); (lit "Liabilities", []); (lit "Equity", []) ] /\
  DailyUpdate.latest_years sample_facts =
  Returns [ (lit "Revenue", [ (2001, 5); (2024, 7) ]%Z);
            (lit "NetIncome", []); (lit "OperatingCashFlow", []);
            (lit "Assets", []); (lit "Liabilities", []); (lit "Equity", []) ].
Proof. split; vm_compute; reflexivity. Qed.

(** * The daily merge *)

Lemma merge_loop_lookup (K : gset Z) m vals : forall (fin : gmap (list ascii) (list observation)) m',
  foldl (fun fin yv =>
           if decide (yv.1 ∈ K) then fin
           else <[m := default [] (fin !! m) ++ [{| year := yv.1; val := yv.2 |}]]> fin)
        fin vals !! m' =
  if decide (m' = m) then
    match map (fun yv => {| year := yv.1; val := yv.2 |})
              (List.filter (fun yv => negb (bool_decide (yv.1 ∈ K))) vals) with
    | [] => fin !! m
    | new => Some (default [] (fin !! m) ++ new)
    end
  else fin !! m'.
Proof.
  induction vals as [|yv vals IH]; intros fin m'; simpl.
  - by case_decide; subst.
  - destruct (decide (yv.1 ∈ K)) as [Hin|Hout].
    + rewrite IH, bool_decide_eq_true_2 by done. done.
    + rewrite IH, bool_decide_eq_false_2 by done. simpl.
      case_decide as Hm; [|by rewrite lookup_insert_ne].
      rewrite lookup_insert_eq. simpl.
      destruct (map _ _) as [|o new]; [done|]. by rewrite <- app_assoc.
Qed.

Lemma merge_metric_lookup (fin : gmap (list ascii) (list observation)) m vals m' :
  DailyUpdate.merge_metric fin m vals !! m' =
  if decide (m' = m) then
    match new_observations (default [] (fin !! m)) vals with
    | [] => fin !! m
    | new => Some (default [] (fin !! m) ++ new)
    end
  else fin !! m'.
Proof.
  unfold DailyUpdate.merge_metric. rewrite merge_loop_lookup.
  case_decide; [|done]. unfold new_observations.
  assert (forall l : list (Z * Z),
    List.filter (fun yv => negb (bool_decide
       (yv.1 ∈ (list_to_set (map year (default [] (fin !! m))) : gset Z)))) l =
    List.filter (fun yv => negb (bool_decide (yv.1 ∈ map year (default [] (fin !! m))))) l) as ->; [|done].
  intros l. apply filter_ext. intros yv. f_equal.
  apply bool_decide_ext. apply elem_of_list_to_set.
Qed.

Lemma dict_get_not_key {V} (d : list (str * V)) k :
  k ∉ map fst d -> dict_get d k = None.
Proof.
  induction d as [|[k' v] d IH]; [done|]. simpl. intros H.
  apply not_elem_of_cons in H as [Hk H].
  rewrite bool_decide_eq_false_2 by done. by apply IH.
Qed.

Lemma merge_updated_lookup updated : forall (fin : gmap (list ascii) (list observation)) m,
  NoDup (map fst updated) ->
  DailyUpdate.merge_updated fin updated !! m =
  match dict_get updated m with
  | None => fin !! m
  | Some vals =>
      match new_observations (default [] (fin !! m)) vals with
      | [] => fin !! m
      | new => Some (default [] (fin !! m) ++ new)
      end
  end.
Proof.
  unfold DailyUpdate.merge_updated.
  induction updated as [|[m1 v1] updated IH]; intros fin m Hnd; [done|].
  simpl in Hnd. apply NoDup_cons in Hnd as [Hm1 Hnd].
  simpl. rewrite IH by done. rewrite merge_metric_lookup.
  case_bool_decide as Hm.
  - subst m. rewrite dict_get_not_key by done. by rewrite decide_True.
  - rewrite decide_False by done. done.
Qed.

(** C9. For every stored record and every metric, the merge keeps the
    stored observations as they are, in place, and appends exactly the
    fetched observations whose year is not among the stored years of that
    metric: a fetched [(year, value)] is appended if and only if its year is
    not already present. *)
Theorem daily_merge_appends_new_years
    (financials : gmap (list ascii) (list observation)) facts updated metric :
  DailyUpdate.latest_years facts = Returns updated ->
  let stored := default [] (financials !! metric) in
  let fetched := default [] (dict_get updated metric) in
  let merged := default [] (DailyUpdate.merge_updated financials updated !! metric) in
  merged = stored ++ new_observations stored fetched /\
  (forall y v, {| year := y; val := v |} ∈ new_observations stored fetched <->
               (y, v) ∈ fetched /\ y ∉ map year stored).
Proof.
  intros Hup stored fetched merged. split.
  - subst merged. rewrite merge_updated_lookup.
    + subst fetched. destruct (dict_get updated metric) as [vals|]; simpl.
      * fold stored. destruct (new_observations stored vals); [by rewrite app_nil_r|done].
      * by rewrite app_nil_r.
    + apply build_dict_keys in Hup. rewrite Hup.
      apply (bool_decide_unpack _). vm_compute. exact I.
  - intros y v. unfold new_observations.
    rewrite list_elem_of_In, in_map_iff. split.
    + intros ([y' v'] & [= -> ->] & Hin). apply filter_In in Hin as [Hin Hy].
      apply negb_true_iff, bool_decide_eq_false in Hy.
      split; [by apply list_elem_of_In|done].
    + intros [Hin Hy]. exists (y, v). split; [done|].
      apply filter_In. split; [by apply list_elem_of_In|].
      by apply negb_true_iff, bool_decide_eq_false.
Qed.

Lemma daily_merge_witness :
  default [] (DailyUpdate.merge_updated sample_financials
                [ (lit "Revenue", [ (2001, 5); (2024, 7) ]%Z);
                  (lit "NetIncome", []); (lit "OperatingCashFlow", []);
                  (lit "Assets", []); (lit "Liabilities", []); (lit "Equity", []) ]
              !! lit "Revenue") =
  [ {| year := 2024; val := 6 |}; {| year := 2001; val := 5 |} ].
Proof.
  apply (daily_merge_appends_new_years sample_financials sample_facts).
  vm_compute. reflexivity.
Defined.

(** * The scenarios of the specification, on the SEC layout *)

Example scenario_apple :
  Bootstrap.get_cik token_sort_ratio (lit "Apple") sec_registry =
  Returns (lit "0000320193").
Proof. vm_compute. reflexivity. Qed.

Example scenario_microsoft_corp :
  Bootstrap.get_cik token_sort_ratio (lit "Microsoft Corp") sec_registry =
  Returns (lit "0000789019").
Proof. vm_compute. reflexivity. Qed.

Example scenario_no_such_company :
  Bootstrap.get_cik token_sort_ratio (lit "NoSuchCompany XYZ") sec_registry =
  Raises (ValueError_CIK_not_found (600 # 26)).
Proof. vm_compute. reflexivity. Qed.

Example scenario_empty_registry :
  Bootstrap.get_cik token_sort_ratio (lit "Apple") [] = Raises TypeError_unpack_None.
Proof. reflexivity. Qed.

Example scenario_misspelt :
  DailyUpdate.get_cik token_sort_ratio (lit "microsft") plain_registry =
  Returns (lit "0000789019").
Proof. vm_compute. reflexivity. Qed.

(** * More on [normalize_name] *)

Lemma lower_char_idem c : lower_char (lower_char c) = lower_char c.
Proof. each_char c. Qed.

Lemma lower_char_word c : is_word_char (lower_char c) = is_word_char c.
Proof. each_char c. Qed.

Lemma py_lower_idem s : py_lower (py_lower s) = py_lower s.
Proof.
  unfold py_lower. rewrite map_map. apply map_ext. intros c. apply lower_char_idem.
Qed.

Lemma keep_word_lower w : keep_word (py_lower w) = py_lower (keep_word w).
Proof.
  unfold keep_word, is_suffix_token. rewrite py_lower_idem.
  by destruct (bool_decide _).
Qed.

Lemma remove_from_lower s : forall word,
  py_lower (remove_suffix_words_from word s) =
  remove_suffix_words_from (py_lower word) (py_lower s).
Proof.
  induction s as [|c s IH]; intros word; simpl.
  - by rewrite keep_word_lower.
  - rewrite lower_char_word. destruct (is_word_char c).
    + rewrite IH. unfold py_lower. by rewrite map_app.
    + unfold py_lower in *. rewrite map_app. simpl. rewrite IH. simpl.
      f_equal. symmetry. apply keep_word_lower.
Qed.

Lemma normalize_of_lower s :
  Bootstrap.normalize_name s =
  py_join (lit " ") (py_split (re_sub_not_az09sp (remove_suffix_words (py_lower s)))).
Proof.
  unfold Bootstrap.normalize_name. rewrite re_sub_words_is_remove.
  unfold remove_suffix_words. by rewrite remove_from_lower.
Qed.

Lemma normalize_name_same_lower s t :
  py_lower s = py_lower t ->
  Bootstrap.normalize_name s = Bootstrap.normalize_name t.
Proof. intros H. by rewrite !normalize_of_lower, H. Qed.

(** X1. Two names of code points below 256 that are equal after
    [lower()] have the same normalized form. *)
Theorem normalize_name_ignores_case (T : Unicode.tables) (s t : list N) :
  Forall (fun c => (c < 256)%N) s -> Forall (fun c => (c < 256)%N) t ->
  Unicode.py_lower T s = Unicode.py_lower T t ->
  Unicode.normalize_name T s = Unicode.normalize_name T t.
Proof.
  intros Hs Ht H.
  rewrite (points_of_below s Hs), (points_of_below t Ht) in H |- *.
  rewrite !py_lower_points in H.
  rewrite !normalize_name_points. f_equal.
  apply normalize_name_same_lower.
  revert H. generalize (py_lower (map ascii_of_N s)), (py_lower (map ascii_of_N t)).
  induction l as [|a l IH]; intros [|b l'] H; simpl in H; try done.
  injection H as Hab Hl. apply point_inj in Hab as ->. f_equal. by apply IH.
Qed.

Lemma normalize_name_ignores_case_witness :
  Unicode.normalize_name sample_tables (map Unicode.point (lit "ADOBE Systems inc")) =
  Unicode.normalize_name sample_tables (map Unicode.point (lit "adobe SYSTEMS Inc")).
Proof.
  apply (normalize_name_ignores_case sample_tables).
  - apply Forall_forall. intros c Hc. apply list_elem_of_In, in_map_iff in Hc as (a & <- & _).
    apply point_below.
  - apply Forall_forall. intros c Hc. apply list_elem_of_In, in_map_iff in Hc as (a & <- & _).
    apply point_below.
  - reflexivity.
Defined.

(** Beyond 256 this fails: "İnc" (U+0130, n, c) and "i̇nc" (i, U+0307, n,
    c) are equal after [lower()]; the first normalizes to the empty string
    and the second to "inc". *)
Example normalize_name_case_of_dotted_inc :
  Unicode.py_lower sample_tables dotted_inc =
  Unicode.py_lower sample_tables [105; 775; 110; 99]%N /\
  Unicode.normalize_name sample_tables dotted_inc = [] /\
  Unicode.normalize_name sample_tables [105; 775; 110; 99]%N = map Unicode.point (lit "inc").
Proof. repeat split. Qed.

Lemma remove_from_separator s : forall word c rest,
  is_word_char c = false ->
  remove_suffix_words_from word (s ++ c :: rest) =
  remove_suffix_words_from word s ++ c :: remove_suffix_words_from [] rest.
Proof.
  induction s as [|d s IH]; intros word c rest Hc; simpl.
  - by rewrite Hc.
  - destruct (is_word_char d); [by apply IH|].
    rewrite IH by done. by rewrite <- app_assoc.
Qed.

Lemma suffix_token_is_word t :
  is_suffix_token t = true -> forallb is_word_char t = true.
Proof.
  unfold is_suffix_token. intros H%bool_decide_eq_true.
  pose proof suffix_tokens_literal as Hlit. rewrite Forall_forall in Hlit.
  destruct (Hlit _ H) as [_ Hl]. by eapply py_lower_letters_word.
Qed.

Lemma split_from_trailing_space s : forall tok,
  split_from tok (s ++ [" "%char]) = split_from tok s.
Proof.
  induction s as [|c s IH]; intros tok; simpl; [by destruct tok|].
  by rewrite !IH.
Qed.

(** X2. A corporate-suffix token, in any case, appended to a name as a word
    of its own does not change the normalized form. *)
Theorem normalize_name_ignores_trailing_suffix s t :
  is_suffix_token t = true ->
  Bootstrap.normalize_name (s ++ lit " " ++ t) = Bootstrap.normalize_name s.
Proof.
  intros Ht. unfold Bootstrap.normalize_name.
  rewrite !re_sub_words_is_remove. unfold remove_suffix_words.
  change (s ++ lit " " ++ t) with (s ++ " "%char :: t).
  rewrite remove_from_separator by done.
  rewrite <- (app_nil_r t) at 1.
  rewrite remove_from_word by (by apply suffix_token_is_word).
  cbn [app remove_suffix_words_from].
  assert (keep_word t = []) as -> by (unfold keep_word; by rewrite Ht).
  unfold py_lower, re_sub_not_az09sp. rewrite map_app, filter_app. simpl map.
  rewrite filter_cons, decide_True, filter_nil by done.
  unfold py_split. by rewrite split_from_trailing_space.
Qed.

Lemma normalize_name_ignores_trailing_suffix_witness :
  Bootstrap.normalize_name (lit "Walmart" ++ lit " " ++ lit "InCorporated") =
  Bootstrap.normalize_name (lit "Walmart").
Proof. apply normalize_name_ignores_trailing_suffix. reflexivity. Defined.

Lemma py_in_double_space_skip x r :
  forallb (fun c => negb (is_space_char c)) x = true ->
  py_in (lit "  ") (x ++ r) = py_in (lit "  ") r.
Proof.
  induction x as [|c x IH]; [done|]. simpl.
  change [" "%char; " "%char] with (lit "  ").
  intros [Hc Hx]%andb_true_iff. rewrite <- IH by done.
  rewrite bool_decide_eq_false_2; [done|].
  intros <-. by vm_compute in Hc.
Qed.

Lemma join_tokens_shape toks :
  forallb is_token toks = true ->
  py_in (lit "  ") (py_join (lit " ") toks) = false /\
  (forall c, head (py_join (lit " ") toks) = Some c -> token_char c = true) /\
  (forall c, last (py_join (lit " ") toks) = Some c -> token_char c = true).
Proof.
  induction toks as [|x toks IH]; [done|].
  cbn [forallb]. intros [Hx Htoks]%andb_true_iff.
  destruct (IH Htoks) as (IH1 & IH2 & IH3).
  apply andb_true_iff in Hx as [Hne Hx].
  pose proof (token_chars_no_space x Hx) as Hns.
  assert (forall c, head x = Some c -> token_char c = true) as Hhead.
  { destruct x as [|d x]; [done|]. simpl in *. intros c [= <-].
    by apply andb_true_iff in Hx as [-> _]. }
  assert (forall c, last x = Some c -> token_char c = true) as Hlast.
  { intros c Hc. rewrite forallb_forall in Hx. apply Hx.
    apply list_elem_of_In. apply last_Some in Hc as [l' ->].
    apply elem_of_app. right. by left. }
  destruct toks as [|y toks].
  - cbn [py_join]. split; [|done].
    rewrite <- (app_nil_r x). by rewrite py_in_double_space_skip.
  - change (py_join (lit " ") (x :: y :: toks))
      with (x ++ " "%char :: py_join (lit " ") (y :: toks)).
    set (r := py_join (lit " ") (y :: toks)) in *.
    assert (exists d r', r = d :: r' /\ token_char d = true) as (d & r' & Hr & Hd).
    { destruct r as [|d r'] eqn:Er.
      - exfalso. cbn [forallb] in Htoks. apply andb_true_iff in Htoks as [Hy _].
        apply andb_true_iff in Hy as [Hyne _].
        subst r. destruct y; [done|]. by destruct toks.
      - exists d, r'. split; [done|]. by apply IH2. }
    split; [|split].
    + rewrite py_in_double_space_skip by done.
      rewrite Hr in IH1 |- *. simpl. simpl in IH1.
      apply orb_false_iff in IH1 as [_ IH1]. rewrite IH1, orb_false_r.
      rewrite bool_decide_eq_false_2; [done|]. intros <-. by vm_compute in Hd.
    + intros c Hc. apply Hhead. destruct x; [done|]. exact Hc.
    + intros c Hc. rewrite last_app in Hc. rewrite Hr in Hc, IH3.
      rewrite last_cons in Hc. destruct (last (d :: r')) eqn:Hl.
      * apply IH3. congruence.
      * by apply last_None in Hl.
Qed.

(** X3. The normalized form has only lowercase ASCII letters, digits and
    single spaces: every character is in [[a-z0-9 ]], no two spaces are
    adjacent, and it neither starts nor ends with a space. *)
Theorem normalize_name_shape s :
  forallb in_class_az09sp (Bootstrap.normalize_name s) = true /\
  ~ is_substring (lit "  ") (Bootstrap.normalize_name s) /\
  head (Bootstrap.normalize_name s) <> Some " "%char /\
  last (Bootstrap.normalize_name s) <> Some " "%char.
Proof.
  change (Bootstrap.normalize_name s) with (py_join (lit " ") (name_tokens s)).
  pose proof (name_tokens_are_tokens s) as Htok.
  destruct (join_tokens_shape _ Htok) as (H1 & H2 & H3).
  split; [|split; [by apply not_substring|split]].
  - apply join_class. apply Forall_forall. intros t Ht.
    rewrite forallb_forall in Htok. apply list_elem_of_In, Htok in Ht.
    by apply andb_true_iff in Ht as [_ Ht].
  - intros H. by apply H2 in H.
  - intros H. by apply H3 in H.
Qed.

(** X4. Two passes reach a fixed point: the twice-normalized name has no
    suffix-token word and a further pass leaves it as it is. *)
Theorem normalize_name_fixed_after_two s :
  has_suffix_word (Bootstrap.normalize_name (Bootstrap.normalize_name s)) = false /\
  Bootstrap.normalize_name (Bootstrap.normalize_name (Bootstrap.normalize_name s)) =
  Bootstrap.normalize_name (Bootstrap.normalize_name s).
Proof.
  assert (has_suffix_word (Bootstrap.normalize_name (Bootstrap.normalize_name s)) = false) as H.
  { unfold has_suffix_word. rewrite normalize_twice.
    set (l := List.filter _ (name_tokens s)).
    assert (forallb is_token l = true) as Hl.
    { apply forallb_forall. intros x [Hx _]%filter_In.
      pose proof (name_tokens_are_tokens s) as Ht.
      rewrite forallb_forall in Ht. by apply Ht. }
    rewrite split_join.
    - apply not_true_is_false. intros Hex.
      apply existsb_exists in Hex as (x & Hx & Hsuf).
      apply filter_In in Hx as [Hx _]. apply filter_In in Hx as [_ Hx].
      by rewrite Hsuf in Hx.
    - apply Forall_forall. intros t Ht.
      rewrite forallb_forall in Hl. apply list_elem_of_In, Hl in Ht.
      apply andb_true_iff in Ht as [_ Ht]. by apply token_chars_no_space. }
  split; [done|].
  apply normalize_name_idempotent_iff. exact H.
Qed.

(** * More on the resolver of the bootstrap script *)

Lemma dict_get_elem {V} (d : list (str * V)) k v :
  dict_get d k = Some v -> (k, v) ∈ d.
Proof.
  induction d as [|[k' v'] d IH]; [done|]. simpl.
  case_bool_decide as Hk.
  - intros [= ->]. subst. left.
  - intros H. right. by apply IH.
Qed.

(** X5. Whatever the registry and the scorer, an identifier [get_cik]
    returns is the zero-padded [cik_str] of an entry of the registry. *)
Theorem get_cik_returns_registry_entry scorer company_name (mapping : registry) cik :
  Bootstrap.get_cik scorer company_name mapping = Returns cik ->
  exists kv, kv ∈ mapping /\ cik = zfill 10 (py_str (cik_str kv.2)).
Proof.
  unfold Bootstrap.get_cik.
  destruct (extractOne _ _ _) as [[[best s] i]|]; [|done].
  destruct (Qle_bool 85 s).
  - destruct (dict_get _ _) as [v|] eqn:Hd; [|done]. intros [= <-].
    apply dict_get_elem in Hd. by eexists (_, v).
  - destruct (find _ _) as [v|] eqn:Hf; [|done]. intros [= <-].
    apply find_some in Hf as [Hin _].
    apply in_map_iff in Hin as (kv & <- & Hkv).
    exists kv. split; [by apply list_elem_of_In|done].
Qed.

Lemma get_cik_returns_registry_entry_witness :
  exists kv, kv ∈ sec_registry /\ lit "0000789019" = zfill 10 (py_str (cik_str kv.2)).
Proof.
  apply (get_cik_returns_registry_entry token_sort_ratio (lit "Micro") sec_registry).
  vm_compute. reflexivity.
Defined.

(** X6. A name that normalizes to the empty string (only suffix tokens and
    punctuation) is contained in every title: on a non-empty registry
    [get_cik] never fails with the not-found error for it. *)
Theorem get_cik_empty_name_is_found scorer company_name (mapping : registry) :
  Bootstrap.normalize_name company_name = [] ->
  mapping <> [] ->
  forall s, Bootstrap.get_cik scorer company_name mapping <>
            Raises (ValueError_CIK_not_found s).
Proof.
  intros Hname Hne s. unfold Bootstrap.get_cik. rewrite Hname.
  destruct (extractOne _ _ _) as [[[best s'] i]|]; [|done].
  destruct (Qle_bool 85 s').
  - by destruct (dict_get _ _).
  - destruct mapping as [|kv mapping]; [done|]. simpl.
    by destruct (Bootstrap.normalize_name (title kv.2)).
Qed.

Lemma get_cik_empty_name_is_found_witness :
  Bootstrap.get_cik token_sort_ratio (lit "Inc.") sec_registry <>
  Raises (ValueError_CIK_not_found 0).
Proof.
  apply (get_cik_empty_name_is_found token_sort_ratio (lit "Inc.") sec_registry);
    [reflexivity|discriminate].
Defined.

Lemma uint_string_digits d :
  forallb is_digit (list_ascii_of_string (NilEmpty.string_of_uint d)) = true.
Proof. induction d; simpl; auto. Qed.

Lemma py_str_digits n : forallb is_digit (py_str n) = true /\ py_str n <> [].
Proof.
  unfold py_str. pose proof (to_uint_nonnil n) as Hn.
  destruct (N.to_uint n) as [|d|d|d|d|d|d|d|d|d|d] eqn:E; try done;
    (split; [apply (uint_string_digits (_ d))|done]).
Qed.

Lemma zfill_digits w s :
  forallb is_digit s = true -> zfill w s = repeat "0"%char (w - length s) ++ s.
Proof.
  unfold zfill. destruct s as [|c s]; [by rewrite app_nil_r|].
  simpl. intros [Hc _]%andb_true_iff.
  assert (is_sign c = false) as ->; [|done].
  revert Hc. each_char c.
Qed.

Lemma identifier_value_zeros k x :
  identifier_value (repeat "0"%char k ++ x) = identifier_value x.
Proof.
  unfold identifier_value. induction k as [|k IH]; [done|].
  simpl. destruct (NilEmpty.uint_of_string (string_of_list_ascii (repeat "0"%char k ++ x)))
    as [d|] eqn:Hd; simpl in *.
  - rewrite <- IH. done.
  - by rewrite <- IH.
Qed.

Lemma identifier_value_py_str n : identifier_value (py_str n) = Some n.
Proof.
  unfold identifier_value, py_str.
  rewrite string_of_list_ascii_of_string.
  pose proof (to_uint_nonnil n) as Hn.
  assert (NilZero.string_of_uint (N.to_uint n) = NilEmpty.string_of_uint (N.to_uint n)) as ->
    by (by destruct (N.to_uint n)).
  rewrite NilEmpty.usu. simpl. f_equal. apply DecimalN.Unsigned.of_to.
Qed.

(** X7. The identifier [str(cik_str).zfill(10)] consists of decimal digits
    only, has the length of [str(cik_str)] or 10 when that is shorter, and
    two different [cik_str] never give the same identifier. *)
Theorem cik_identifier_format n :
  forallb is_digit (zfill 10 (py_str n)) = true /\
  length (zfill 10 (py_str n)) = Nat.max 10 (length (py_str n)) /\
  forall m, zfill 10 (py_str n) = zfill 10 (py_str m) -> n = m.
Proof.
  destruct (py_str_digits n) as [Hd Hne].
  rewrite zfill_digits by done. split; [|split].
  - rewrite forallb_app, Hd, andb_true_r.
    induction (10 - length (py_str n)) as [|k IH]; [done|]. exact IH.
  - rewrite length_app, repeat_length. lia.
  - intros m. destruct (py_str_digits m) as [Hdm _].
    rewrite zfill_digits by done. intros H.
    apply (f_equal identifier_value) in H.
    rewrite !identifier_value_zeros, !identifier_value_py_str in H. congruence.
Qed.

(** * More on the financial facts *)

Lemma end_year_cases i :
  (year_parses i /\ end_year i = Returns (item_year i)) \/
  (~ year_parses i /\ end_year i = Raises ValueError_int).
Proof.
  unfold year_parses, end_year, item_year.
  destruct (py_int _) as [y|]; [left|right]; split; done.
Qed.

Lemma pick_items_all_parse cutoff items :
  Forall year_parses items ->
  Bootstrap.pick_items cutoff items = Returns (window_observations cutoff items).
Proof.
  unfold window_observations.
  induction 1 as [|i items Hi _ IH]; [done|]. simpl.
  destruct (end_year_cases i) as [[_ ->]|[Hn _]]; [|done]. simpl.
  destruct (cutoff <=? item_year i)%Z; [|done]. by rewrite IH.
Qed.

Lemma pick_items_bad_date cutoff items :
  ~ Forall year_parses items ->
  Bootstrap.pick_items cutoff items = Raises ValueError_int.
Proof.
  induction items as [|i items IH]; intros Hbad; [by destruct Hbad|]. simpl.
  destruct (end_year_cases i) as [[Hi ->]|[_ ->]]; [|done]. simpl.
  assert (~ Forall year_parses items) as Hrest
    by (intros H; apply Hbad; by constructor).
  rewrite (IH Hrest). by destruct (cutoff <=? item_year i)%Z.
Qed.

Lemma pick_items_from_all_parse items : forall acc,
  Forall year_parses items ->
  DailyUpdate.pick_items_from acc items =
  Returns (foldl (fun acc i => DailyUpdate.dict_set acc (item_year i) (item_val i)) acc items).
Proof.
  induction items as [|i items IH]; intros acc Hall; [done|]. simpl.
  apply Forall_cons in Hall as [Hi Hall].
  destruct (end_year_cases i) as [[_ ->]|[Hn _]]; [|done]. simpl. by apply IH.
Qed.

Lemma pick_items_from_bad_date items : forall acc,
  ~ Forall year_parses items ->
  DailyUpdate.pick_items_from acc items = Raises ValueError_int.
Proof.
  induction items as [|i items IH]; intros acc Hbad; [by destruct Hbad|]. simpl.
  destruct (end_year_cases i) as [[Hi ->]|[_ ->]]; [|done]. simpl.
  apply IH. intros H. apply Hbad. by constructor.
Qed.

Lemma build_dict_all_return {V} (f : str -> outcome V) (g : str -> V) l :
  (forall kc, kc ∈ l -> f kc.2 = Returns (g kc.2)) ->
  build_dict f l = Returns (map (fun kc => (kc.1, g kc.2)) l).
Proof.
  induction l as [|[k c] l IH]; intros H; [done|]. simpl.
  pose proof (H (k, c) ltac:(left)) as Hc. simpl in Hc. rewrite Hc. simpl.
  rewrite IH; [done|]. intros kc Hkc. apply H. by right.
Qed.

Lemma build_dict_one_raises {V} (f : str -> outcome V) e l kc :
  (forall c, (exists v, f c = Returns v) \/ f c = Raises e) ->
  kc ∈ l -> f kc.2 = Raises e ->
  build_dict f l = Raises e.
Proof.
  intros Hf. induction l as [|[k c] l IH]; intros Hin Hkc.
  - by apply elem_of_nil in Hin.
  - simpl. destruct (Hf c) as [[v Hv]|Hr]; [|by rewrite Hr].
    rewrite Hv. simpl.
    apply elem_of_cons in Hin as [->|Hin]; [simpl in Hkc; congruence|].
    by rewrite IH.
Qed.

Lemma parses_dec_all items : Forall year_parses items \/ ~ Forall year_parses items.
Proof.
  induction items as [|i items [IH|IH]].
  - left. constructor.
  - destruct (end_year_cases i) as [[Hi _]|[Hi _]].
    + left. by constructor.
    + right. intros H. by apply Forall_cons in H as [? _].
  - right. intros H. by apply Forall_cons in H as [_ ?].
Qed.

(** X8. When the dates of the USD items of the six concepts all parse,
    [extract_facts] returns the six metrics in their order, each with the
    observations of its concept from year [today - 5] on, in the order of
    the payload; a concept, its units or its USD list that is missing
    gives the empty list. *)
Theorem extract_facts_returns today_year facts :
  (forall kc i, kc ∈ metric_concepts -> i ∈ usd_items facts kc.2 -> year_parses i) ->
  Bootstrap.extract_facts today_year facts =
  Returns (map (fun kc => (kc.1, window_observations (today_year - 5) (usd_items facts kc.2)))
               metric_concepts).
Proof.
  intros Hall. unfold Bootstrap.extract_facts.
  apply (build_dict_all_return _ (fun c => window_observations (today_year - 5) (usd_items facts c))).
  intros kc Hkc. apply pick_items_all_parse, Forall_forall. intros i Hi.
  by apply (Hall kc).
Qed.

Lemma extract_facts_returns_witness :
  Bootstrap.extract_facts 2025 sample_facts =
  Returns (map (fun kc => (kc.1, window_observations 2020 (usd_items sample_facts kc.2)))
               metric_concepts).
Proof.
  apply (extract_facts_returns 2025 sample_facts).
  intros kc i Hkc Hi. apply list_elem_of_In in Hkc.
  repeat (destruct Hkc as [<-|Hkc]; [vm_compute in Hi;
    apply list_elem_of_In in Hi; repeat (destruct Hi as [<-|Hi]; [by eexists|]); done|]).
  done.
Defined.

(** X9. One item whose date does not parse, in the USD list of any of the
    six concepts, makes [extract_facts] raise the ValueError of [int],
    whatever the year the item would have. *)
Theorem extract_facts_bad_date today_year facts kc i :
  kc ∈ metric_concepts -> i ∈ usd_items facts kc.2 -> ~ year_parses i ->
  Bootstrap.extract_facts today_year facts = Raises ValueError_int.
Proof.
  intros Hkc Hi Hbad. unfold Bootstrap.extract_facts.
  apply (build_dict_one_raises _ _ _ kc); [|done|].
  - intros c. destruct (parses_dec_all (usd_items facts c)) as [H|H].
    + left. eexists. by apply pick_items_all_parse.
    + right. by apply pick_items_bad_date.
  - apply pick_items_bad_date. intros H. rewrite Forall_forall in H. by apply Hbad, H.
Qed.

Lemma extract_facts_bad_date_witness :
  Bootstrap.extract_facts 2025 broken_facts = Raises ValueError_int.
Proof.
  apply (extract_facts_bad_date 2025 broken_facts (lit "Assets", lit "Assets")
           {| item_end := lit "n/a"; item_val := 1 |}).
  - apply (bool_decide_unpack _). vm_compute. exact I.
  - vm_compute. left.
  - intros [y Hy]. vm_compute in Hy. discriminate.
Defined.

Lemma map_fmap {A B} (f : A -> B) l : map f l = f <$> l.
Proof. reflexivity. Qed.

Lemma dict_set_key_elem {V} (d : list (Z * V)) k v x :
  x ∈ map fst (DailyUpdate.dict_set d k v) <-> x = k \/ x ∈ map fst d.
Proof.
  induction d as [|[k' v'] d IH]; simpl.
  - rewrite elem_of_cons, elem_of_nil. tauto.
  - case_bool_decide as Hk; simpl.
    + subst k'. rewrite !elem_of_cons. tauto.
    + rewrite !elem_of_cons, IH. tauto.
Qed.

Lemma dict_set_insert {V} (d : list (Z * V)) k v :
  NoDup (map fst d) ->
  NoDup (map fst (DailyUpdate.dict_set d k v)) /\
  (list_to_map (DailyUpdate.dict_set d k v) : gmap Z V) = <[k := v]> (list_to_map d).
Proof.
  induction d as [|[k' v'] d IH]; simpl; intros Hnd.
  - split; [|done]. apply NoDup_singleton.
  - apply NoDup_cons in Hnd as [Hk' Hnd]. destruct (IH Hnd) as [IH1 IH2].
    case_bool_decide as Hk; simpl.
    + subst k'. split; [by apply NoDup_cons|]. by rewrite insert_insert_eq.
    + split.
      * apply NoDup_cons. split; [|done].
        rewrite dict_set_key_elem. intros [->|?]; done.
      * rewrite IH2. by apply insert_insert_ne.
Qed.

Lemma year_values_lookup items y : forall acc : list (Z * Z),
  NoDup (map fst acc) ->
  let vals := foldl (fun acc i => DailyUpdate.dict_set acc (item_year i) (item_val i)) acc items in
  NoDup (map fst vals) /\
  (list_to_map vals : gmap Z Z) !! y =
  foldl (fun o i => if bool_decide (item_year i = y) then Some (item_val i) else o)
        ((list_to_map acc : gmap Z Z) !! y) items.
Proof.
  induction items as [|i items IH]; intros acc Hnd; [done|]. simpl.
  destruct (dict_set_insert acc (item_year i) (item_val i) Hnd) as [Hnd' Hmap].
  destruct (IH _ Hnd') as [IH1 IH2]. split; [done|].
  rewrite IH2, Hmap. f_equal.
  case_bool_decide as Hy; [subst; by rewrite lookup_insert_eq|by rewrite lookup_insert_ne].
Qed.

Lemma pick_items_from_returns items vals :
  DailyUpdate.pick_items_from [] items = Returns vals ->
  Forall year_parses items /\ NoDup (map fst vals) /\
  forall y v, (y, v) ∈ vals <-> last_value items y = Some v.
Proof.
  intros H. destruct (parses_dec_all items) as [Hall|Hbad].
  2:{ by rewrite (pick_items_from_bad_date items [] Hbad) in H. }
  rewrite (pick_items_from_all_parse items [] Hall) in H. injection H as <-.
  split; [done|].
  assert (NoDup (map fst ([] : list (Z * Z)))) as Hnil by constructor.
  split; [by apply (year_values_lookup items 0 [] Hnil)|].
  intros y v. destruct (year_values_lookup items y [] Hnil) as [Hnd Hlook].
  rewrite map_fmap in Hnd.
  rewrite (elem_of_list_to_map (M := gmap Z) _ _ _ Hnd), Hlook. done.
Qed.

Lemma pair_key_unique {A B} (l : list (A * B)) k c c' :
  NoDup (map fst l) -> (k, c) ∈ l -> (k, c') ∈ l -> c = c'.
Proof.
  induction l as [|[k0 c0] l IH]; simpl; intros Hnd H1 H2.
  - by apply elem_of_nil in H1.
  - apply NoDup_cons in Hnd as [Hk Hnd].
    assert (forall c1, (k0, c1) ∈ l -> False) as Hno.
    { intros c1 Hc1. apply Hk. apply list_elem_of_In, in_map_iff.
      exists (k0, c1). split; [done|by apply list_elem_of_In]. }
    apply elem_of_cons in H1 as [E1|H1]; apply elem_of_cons in H2 as [E2|H2].
    + congruence.
    + exfalso. injection E1 as -> ->. by eapply Hno.
    + exfalso. injection E2 as -> ->. by eapply Hno.
    + by apply IH.
Qed.

Lemma metric_concepts_keys : NoDup (map fst metric_concepts).
Proof. apply (bool_decide_unpack _). vm_compute. exact I. Qed.

(** X10. When [latest_years] returns, it has the six metrics in their
    order; the years of a metric are pairwise distinct, and the value of a
    year is the value of the last item of that year in the USD list of the
    metric's concept, whatever the year. *)
Theorem latest_years_returns facts updated :
  DailyUpdate.latest_years facts = Returns updated ->
  map fst updated = metric_names /\
  forall k vals, (k, vals) ∈ updated ->
    exists c, (k, c) ∈ metric_concepts /\ NoDup (map fst vals) /\
      forall y v, (y, v) ∈ vals <-> last_value (usd_items facts c) y = Some v.
Proof.
  intros H. split; [by apply build_dict_keys in H|].
  intros k vals Hk.
  destruct (build_dict_values _ _ _ _ _ H Hk) as (c & Hc & Hpick).
  exists c. split; [done|].
  by apply pick_items_from_returns in Hpick as (_ & Hnd & Hval).
Qed.

Lemma latest_years_returns_witness :
  map fst [ (lit "Revenue", [ (2001, 5); (2024, 7) ]%Z);
            (lit "NetIncome", []); (lit "OperatingCashFlow", []);
            (lit "Assets", []); (lit "Liabilities", []); (lit "Equity", []) ]
  = metric_names.
Proof.
  apply (latest_years_returns sample_facts). vm_compute. reflexivity.
Defined.

(** * More on the daily merge *)

Lemma merged_list (fin : gmap (list ascii) (list observation)) updated m :
  NoDup (map fst updated) ->
  default [] (DailyUpdate.merge_updated fin updated !! m) =
  default [] (fin !! m) ++
  new_observations (default [] (fin !! m)) (default [] (dict_get updated m)).
Proof.
  intros Hnd. rewrite merge_updated_lookup by done.
  destruct (dict_get updated m) as [vals|]; simpl; [|by rewrite app_nil_r].
  destruct (new_observations _ vals); [by rewrite app_nil_r|done].
Qed.

Lemma new_observations_years stored fetched :
  map year (new_observations stored fetched) =
  map fst (List.filter (fun yv => negb (bool_decide (yv.1 ∈ map year stored))) fetched).
Proof. unfold new_observations. rewrite map_map. by apply map_ext. Qed.

Lemma filter_keys_nodup {A B} (p : A * B -> bool) l :
  NoDup (map fst l) -> NoDup (map fst (List.filter p l)).
Proof.
  induction l as [|x l IH]; [done|]. simpl. intros [Hx Hl]%NoDup_cons.
  destruct (p x); [|by apply IH]. simpl. apply NoDup_cons. split; [|by apply IH].
  intros Hin. apply Hx. apply list_elem_of_In, in_map_iff in Hin as (z & Hz & Hin).
  apply filter_In in Hin as [Hin _].
  apply list_elem_of_In, in_map_iff. by exists z.
Qed.

Lemma filter_all_false {A} (p : A -> bool) l :
  (forall x, In x l -> p x = false) -> List.filter p l = [].
Proof.
  induction l as [|x l IH]; [done|]. simpl. intros H.
  rewrite (H x) by (by left). apply IH. intros y Hy. apply H. by right.
Qed.

Lemma new_observations_again stored fetched :
  new_observations (stored ++ new_observations stored fetched) fetched = [].
Proof.
  unfold new_observations at 1. rewrite filter_all_false; [done|].
  intros [y v] Hin. apply negb_false_iff, bool_decide_eq_true. simpl.
  rewrite map_app, elem_of_app.
  destruct (decide (y ∈ map year stored)) as [Hs|Hs]; [by left|right].
  rewrite new_observations_years. apply list_elem_of_In, in_map_iff.
  exists (y, v). split; [done|]. apply filter_In. split; [done|].
  by apply negb_true_iff, bool_decide_eq_false.
Qed.

Lemma merge_updated_again (fin : gmap (list ascii) (list observation)) updated :
  NoDup (map fst updated) ->
  DailyUpdate.merge_updated (DailyUpdate.merge_updated fin updated) updated =
  DailyUpdate.merge_updated fin updated.
Proof.
  intros Hnd. apply map_eq. intros m.
  rewrite (merge_updated_lookup updated (DailyUpdate.merge_updated fin updated)) by done.
  destruct (dict_get updated m) as [vals|] eqn:Hget; [|done].
  pose proof (merged_list fin updated m Hnd) as Hm. rewrite Hget in Hm. simpl in Hm.
  rewrite Hm. by rewrite new_observations_again.
Qed.

Lemma latest_years_keys facts updated :
  DailyUpdate.latest_years facts = Returns updated -> NoDup (map fst updated).
Proof.
  intros H. apply build_dict_keys in H. rewrite H. apply metric_concepts_keys.
Qed.

Lemma latest_years_years_distinct facts updated k vals :
  DailyUpdate.latest_years facts = Returns updated ->
  (k, vals) ∈ updated -> NoDup (map fst vals).
Proof.
  intros H Hk.
  destruct (build_dict_values _ _ _ _ _ H Hk) as (c & Hc & Hpick).
  by apply pick_items_from_returns in Hpick as (_ & Hnd & _).
Qed.

(** X11. Whatever fails, the update of a company never removes or changes
    a stored observation: for every metric the list after the update is the
    list before it, followed by what was appended. *)
Theorem update_info_keeps_observations scorer tickers companyfacts name info metric :
  exists appended,
    default [] (DailyUpdate.info_financials
                  (DailyUpdate.update_info scorer tickers companyfacts name info) !! metric) =
    default [] (DailyUpdate.info_financials info !! metric) ++ appended.
Proof.
  unfold DailyUpdate.update_info.
  assert (forall cik info1,
    DailyUpdate.ensure_cik scorer tickers name info = Some (cik, info1) ->
    DailyUpdate.info_financials info1 = DailyUpdate.info_financials info) as Hens.
  { unfold DailyUpdate.ensure_cik. intros cik info1.
    destruct (DailyUpdate.info_cik info) as [[|c cik0]|]; try (by intros [= <- <-]);
      (destruct tickers as [mapping|]; [|done]);
      (destruct (DailyUpdate.get_cik scorer name mapping); [|done]);
      by intros [= <- <-]. }
  destruct (DailyUpdate.ensure_cik scorer tickers name info) as [[cik info1]|] eqn:He.
  2:{ exists []. by rewrite app_nil_r. }
  specialize (Hens cik info1 eq_refl).
  destruct (companyfacts cik) as [facts|].
  2:{ exists []. by rewrite Hens, app_nil_r. }
  destruct (DailyUpdate.latest_years facts) as [updated|] eqn:Hup.
  2:{ exists []. by rewrite Hens, app_nil_r. }
  simpl. rewrite Hens. eexists. apply merged_list. by eapply latest_years_keys.
Qed.

Lemma zfill_length w s : w <= length (zfill w s).
Proof.
  unfold zfill. destruct s as [|c s]; [rewrite repeat_length; simpl; lia|].
  destruct (is_sign c); simpl; rewrite length_app, repeat_length; simpl; lia.
Qed.

Lemma daily_get_cik_nonempty scorer name (mapping : registry) cik :
  DailyUpdate.get_cik scorer name mapping = Returns cik -> cik <> [].
Proof.
  unfold DailyUpdate.get_cik. intros H Hnil.
  assert (10 <= length cik); [|subst; simpl in *; lia].
  destruct (find _ _); [injection H as <-; apply zfill_length|].
  destruct (extractOne _ _ _) as [[[best s] i]|]; [|done].
  destruct (Qle_bool 85 s); [|done].
  destruct (List.filter _ _); [done|]. injection H as <-. apply zfill_length.
Qed.

Lemma update_info_again scorer tickers companyfacts name info :
  DailyUpdate.update_info scorer tickers companyfacts name
    (DailyUpdate.update_info scorer tickers companyfacts name info) =
  DailyUpdate.update_info scorer tickers companyfacts name info.
Proof.
  unfold DailyUpdate.update_info at 2 3.
  destruct (DailyUpdate.ensure_cik scorer tickers name info) as [[cik info1]|] eqn:He.
  2:{ unfold DailyUpdate.update_info. by rewrite He. }
  assert (DailyUpdate.info_cik info1 = Some cik /\ cik <> []) as [Hcik Hne].
  { unfold DailyUpdate.ensure_cik in He.
    destruct (DailyUpdate.info_cik info) as [[|c cik0]|] eqn:Hi;
      try (injection He as <- <-; by split);
      (destruct tickers as [mapping|]; [|done]);
      (destruct (DailyUpdate.get_cik scorer name mapping) as [x|] eqn:Hg; [|done]);
      injection He as <- <-; (split; [done|by eapply daily_get_cik_nonempty]). }
  assert (forall info2, DailyUpdate.info_cik info2 = Some cik ->
            DailyUpdate.ensure_cik scorer tickers name info2 = Some (cik, info2)) as Hens.
  { intros info2 H2. unfold DailyUpdate.ensure_cik. rewrite H2. by destruct cik. }
  destruct (companyfacts cik) as [facts|] eqn:Hf.
  2:{ unfold DailyUpdate.update_info. by rewrite (Hens info1 Hcik), Hf. }
  destruct (DailyUpdate.latest_years facts) as [updated|] eqn:Hup.
  2:{ unfold DailyUpdate.update_info. by rewrite (Hens info1 Hcik), Hf, Hup. }
  unfold DailyUpdate.update_info. rewrite Hens by done. rewrite Hf, Hup. simpl.
  f_equal. apply merge_updated_again. by eapply latest_years_keys.
Qed.

(** X12. Running the daily update again on its own output, with the same
    answers from the network, changes nothing: no observation is appended a
    second time and a CIK found in the first run is kept. *)
Theorem daily_main_idempotent scorer tickers companyfacts data :
  DailyUpdate.main scorer tickers companyfacts
    (DailyUpdate.main scorer tickers companyfacts data) =
  DailyUpdate.main scorer tickers companyfacts data.
Proof.
  unfold DailyUpdate.main. rewrite map_map. apply map_ext. intros [name info]. simpl.
  by rewrite update_info_again.
Qed.

(** X13. The merge keeps the years of a metric pairwise distinct: when the
    stored years of a metric are, so are the years after the merge of what
    [latest_years] returned. *)
Theorem daily_merge_keeps_years_distinct
    (financials : gmap (list ascii) (list observation)) facts updated metric :
  DailyUpdate.latest_years facts = Returns updated ->
  NoDup (map year (default [] (financials !! metric))) ->
  NoDup (map year (default [] (DailyUpdate.merge_updated financials updated !! metric))).
Proof.
  intros Hup Hnd. rewrite merged_list by (by eapply latest_years_keys).
  rewrite map_app. apply NoDup_app. split; [done|]. split.
  - intros y Hy Hnew. rewrite new_observations_years in Hnew.
    apply list_elem_of_In, in_map_iff in Hnew as ([y' v] & <- & Hin).
    apply filter_In in Hin as [_ Hf].
    by apply negb_true_iff, bool_decide_eq_false in Hf.
  - rewrite new_observations_years. apply filter_keys_nodup.
    destruct (dict_get updated metric) as [vals|] eqn:Hget; [|constructor]. simpl.
    apply dict_get_elem in Hget. by eapply latest_years_years_distinct.
Qed.

Lemma daily_merge_keeps_years_distinct_witness :
  NoDup (map year (default [] (DailyUpdate.merge_updated sample_financials
    [ (lit "Revenue", [ (2001, 5); (2024, 7) ]%Z);
      (lit "NetIncome", []); (lit "OperatingCashFlow", []);
      (lit "Assets", []); (lit "Liabilities", []); (lit "Equity", []) ]
    !! lit "Revenue"))).
Proof.
  apply (daily_merge_keeps_years_distinct sample_financials sample_facts).
  - vm_compute. reflexivity.
  - apply (bool_decide_unpack _). vm_compute. exact I.
Defined.

(** * The first daily update after a bootstrap *)

Lemma last_value_from_some items y v : forall o,
  foldl (fun o i => if bool_decide (item_year i = y) then Some (item_val i) else o) o items
  = Some v ->
  o = Some v \/ exists i, i ∈ items /\ item_year i = y.
Proof.
  induction items as [|i items IH]; intros o H; [by left|]. simpl in H.
  apply IH in H as [H|(j & Hj & Hy)].
  - case_bool_decide as Hi; [right; exists i; split; [left|done]|by left].
  - right. exists j. split; [by right|done].
Qed.

Lemma window_years cutoff items y :
  y ∈ map year (window_observations cutoff items) <->
  exists i, i ∈ items /\ item_year i = y /\ (cutoff <= y)%Z.
Proof.
  unfold window_observations. rewrite map_map. simpl.
  rewrite list_elem_of_In, in_map_iff. split.
  - intros (i & <- & Hin). apply filter_In in Hin as [Hin Hc].
    exists i. split; [by apply list_elem_of_In|]. split; [done|lia].
  - intros (i & Hin & <- & Hc). exists i. split; [done|].
    apply filter_In. split; [by apply list_elem_of_In|lia].
Qed.

Lemma pick_items_returns cutoff items obs :
  Bootstrap.pick_items cutoff items = Returns obs ->
  obs = window_observations cutoff items.
Proof.
  intros H. destruct (parses_dec_all items) as [Hall|Hbad].
  - rewrite pick_items_all_parse in H by done. by injection H.
  - by rewrite pick_items_bad_date in H.
Qed.

Lemma new_observations_after_bootstrap today_year facts d updated k stored vals :
  Bootstrap.extract_facts today_year facts = Returns d ->
  DailyUpdate.latest_years facts = Returns updated ->
  dict_get d k = Some stored ->
  dict_get updated k = Some vals ->
  new_observations stored vals =
  map (fun yv => {| year := yv.1; val := yv.2 |})
      (List.filter (fun yv => (yv.1 <? today_year - 5)%Z) vals).
Proof.
  intros Hd Hu Hs Hv.
  apply dict_get_elem in Hs, Hv.
  destruct (build_dict_values _ _ _ _ _ Hd Hs) as (c & Hc & Hpick).
  destruct (build_dict_values _ _ _ _ _ Hu Hv) as (c' & Hc' & Hfrom).
  assert (c' = c) as -> by (by eapply pair_key_unique; [apply metric_concepts_keys|..]).
  apply pick_items_returns in Hpick as ->.
  apply pick_items_from_returns in Hfrom as (_ & _ & Hval).
  unfold new_observations. f_equal. apply filter_ext_in. intros [y v] Hin. simpl.
  apply list_elem_of_In, Hval in Hin.
  apply last_value_from_some in Hin as [?|(i & Hi & Hy)]; [done|].
  destruct (Z.ltb_spec y (today_year - 5)) as [Hlt|Hge].
  - apply negb_true_iff, bool_decide_eq_false. rewrite window_years.
    intros (j & _ & _ & Hj). lia.
  - apply negb_false_iff, bool_decide_eq_true. rewrite window_years. by exists i.
Qed.

(** The stored dict, looked up by key. *)
Lemma list_to_map_dict_get {V} (d : list (str * V)) k :
  (list_to_map d : gmap (list ascii) V) !! k = dict_get d k.
Proof.
  induction d as [|[k' v] d IH]; [done|]. simpl.
  case_bool_decide as Hk; [subst; by rewrite lookup_insert_eq|].
  by rewrite lookup_insert_ne.
Qed.

Lemma dict_get_key {V} (d : list (str * V)) k :
  k ∈ map fst d -> is_Some (dict_get d k).
Proof.
  induction d as [|[k' v] d IH]; simpl; intros Hk; [by apply elem_of_nil in Hk|].
  case_bool_decide as E; [by eexists|].
  apply elem_of_cons in Hk as [->|Hk]; [done|by apply IH].
Qed.

(** X14. After a bootstrap, the first daily merge on the same payload
    makes the list of each metric the stored list followed by exactly the
    fetched years older than the bootstrap's window: every (year, value) of
    [latest_years] with [year < today - 5], in the order fetched. *)
Theorem first_update_after_bootstrap today_year facts d updated k :
  Bootstrap.extract_facts today_year facts = Returns d ->
  DailyUpdate.latest_years facts = Returns updated ->
  default [] (DailyUpdate.merge_updated (list_to_map d) updated !! k) =
  default [] (dict_get d k) ++
  map (fun yv => {| year := yv.1; val := yv.2 |})
      (List.filter (fun yv => (yv.1 <? today_year - 5)%Z)
                   (default [] (dict_get updated k))).
Proof.
  intros Hd Hu.
  rewrite merged_list by (by eapply latest_years_keys).
  rewrite list_to_map_dict_get. f_equal.
  destruct (dict_get updated k) as [vals|] eqn:Hv; [|done].
  destruct (dict_get d k) as [stored|] eqn:Hs.
  - by eapply new_observations_after_bootstrap.
  - exfalso. apply dict_get_elem in Hv.
    assert (k ∈ map fst d) as Hk.
    { rewrite (build_dict_keys _ _ _ Hd), <- (build_dict_keys _ _ _ Hu).
      apply list_elem_of_In, in_map_iff. exists (k, vals).
      split; [done|by apply list_elem_of_In]. }
    apply dict_get_key in Hk as [? Hk]. congruence.
Qed.

Lemma first_update_after_bootstrap_witness :
  default [] (DailyUpdate.merge_updated (list_to_map sample_extracted) sample_updated
              !! lit "Revenue") =
  default [] (dict_get sample_extracted (lit "Revenue")) ++
  map (fun yv => {| year := yv.1; val := yv.2 |})
      (List.filter (fun yv => (yv.1 <? 2025 - 5)%Z)
                   (default [] (dict_get sample_updated (lit "Revenue")))).
Proof.
  apply (first_update_after_bootstrap 2025 sample_facts sample_extracted sample_updated
           (lit "Revenue")).
  - vm_compute. reflexivity.
  - vm_compute. reflexivity.
Defined.

(** On the sample: the revenue of 2001 is appended after that of 2024. *)
Example first_update_of_sample :
  default [] (DailyUpdate.merge_updated (list_to_map sample_extracted) sample_updated
              !! lit "Revenue") =
  [ {| year := 2024; val := 7 |}; {| year := 2001; val := 5 |} ].
Proof. vm_compute. reflexivity. Qed.

(** * The resolver of the daily update *)

(** X15. When a title equals the name up to case, the daily-update
    [get_cik] returns the zero-padded identifier of the first such entry,
    whatever the scorer. *)
Theorem daily_get_cik_exact_title scorer name (mapping : registry) before v after :
  map snd mapping = before ++ v :: after ->
  py_lower (title v) = py_lower name ->
  (forall u, u ∈ before -> py_lower (title u) <> py_lower name) ->
  DailyUpdate.get_cik scorer name mapping = Returns (zfill 10 (py_str (cik_str v))).
Proof.
  intros Hsplit Hv Hbefore. unfold DailyUpdate.get_cik.
  rewrite Hsplit, find_first; [done| |by apply bool_decide_eq_true].
  apply Forall_forall. intros u Hu. apply bool_decide_eq_false. by apply Hbefore.
Qed.

Lemma daily_get_cik_exact_title_witness :
  DailyUpdate.get_cik token_sort_ratio (lit "MICROSOFT corporation") sec_registry =
  Returns (lit "0000789019").
Proof.
  apply (daily_get_cik_exact_title token_sort_ratio (lit "MICROSOFT corporation") sec_registry
           [(company "0" 320193 "Apple Inc.").2]
           (company "1" 789019 "Microsoft Corporation").2 []).
  - reflexivity.
  - reflexivity.
  - intros u Hu. apply list_elem_of_In in Hu. destruct Hu as [<-|[]].
    vm_compute. discriminate.
Defined.

Lemma extractOne_loop_keeps scorer query choices : forall idx cutoff r,
  exists r', extractOne_loop scorer query choices idx cutoff (Some r) = Some r'.
Proof.
  induction choices as [|x rest IH]; intros idx cutoff r; [by eexists|].
  cbn [extractOne_loop].
  destruct (_ && _); destruct (Qeq_bool _ 100); eauto.
Qed.

Lemma extractOne_some scorer query x rest :
  exists r, extractOne scorer query (x :: rest) = Some r.
Proof.
  unfold extractOne. cbn [extractOne_loop].
  assert (Qle_bool 0 (with_cutoff scorer 0 query x) = true) as ->.
  { unfold with_cutoff. destruct (Qle_bool 0 (scorer query x)) eqn:H; [done|].
    by apply Qle_bool_iff. }
  cbn [andb]. destruct (Qeq_bool _ 100); [by eexists|]. apply extractOne_loop_keeps.
Qed.

(** X16. The daily-update [get_cik] raises the TypeError of unpacking
    [None] on the empty registry; on any other registry, however it is
    keyed and whatever the scorer, it returns the zero-padded identifier of
    an entry or fails with the not-found ValueError: the look-up of the
    best title never fails. *)
Theorem daily_get_cik_outcomes scorer name (mapping : registry) :
  match mapping with
  | [] => DailyUpdate.get_cik scorer name mapping = Raises TypeError_unpack_None
  | _ =>
      (exists kv, kv ∈ mapping /\
         DailyUpdate.get_cik scorer name mapping =
         Returns (zfill 10 (py_str (cik_str kv.2)))) \/
      (exists s, DailyUpdate.get_cik scorer name mapping =
                 Raises (ValueError_CIK_not_found s))
  end.
Proof.
  destruct mapping as [|kv0 mapping']; [done|].
  set (mapping := kv0 :: mapping').
  assert (forall v, In v (map snd mapping) -> exists kv, kv ∈ mapping /\ v = kv.2) as Hentry.
  { intros v (kv & <- & Hkv)%in_map_iff. exists kv. split; [by apply list_elem_of_In|done]. }
  unfold DailyUpdate.get_cik.
  destruct (find _ (map snd mapping)) as [v|] eqn:Hf.
  - left. apply find_some in Hf as [Hin _].
    destruct (Hentry v Hin) as (kv & Hkv & ->). by exists kv.
  - destruct (extractOne_some scorer name (title kv0.2) (map (fun v => title v) (map snd mapping')))
      as [[[best s] i] He].
    change (extractOne scorer name (map (fun v => title v) (map snd mapping)) = Some (best, s, i)) in He.
    rewrite He. destruct (Qle_bool 85 s); [left|right; by eexists].
    apply extractOne_index in He. rewrite lookup_map in He.
    destruct (map snd mapping !! i) as [v|] eqn:Hv; [|done]. injection He as <-.
    destruct (List.filter _ (map snd mapping)) as [|m l] eqn:Hfil.
    + exfalso. assert (In v (List.filter (fun u => bool_decide (title u = title v)) (map snd mapping))) as Hin.
      { apply filter_In. split; [|by apply bool_decide_eq_true].
        apply list_elem_of_In. by eapply list_elem_of_lookup_2. }
      by rewrite Hfil in Hin.
    + assert (In m (map snd mapping)) as Hm.
      { assert (In m (m :: l)) as H by (by left). rewrite <- Hfil in H.
        by apply filter_In in H as [? _]. }
      destruct (Hentry m Hm) as (kv & Hkv & ->). by exists kv.
Qed.

(** * The loop of the bootstrap script *)

Lemma process_company_result scorer today_year companyfacts (mapping : registry) all_data name :
  Bootstrap.process_company scorer today_year companyfacts mapping all_data name =
  match company_result scorer today_year companyfacts mapping name with
  | Some r => <[name := r]> all_data
  | None => all_data
  end.
Proof.
  unfold Bootstrap.process_company, company_result.
  destruct (Bootstrap.get_cik _ _ _); [|done].
  destruct (companyfacts _); [|done].
  by destruct (Bootstrap.extract_facts _ _).
Qed.

Lemma bootstrap_main_result scorer today_year companyfacts companies (mapping : registry) name :
  Bootstrap.main scorer today_year companyfacts companies mapping !! name =
  if bool_decide (name ∈ companies)
  then company_result scorer today_year companyfacts mapping name else None.
Proof.
  unfold Bootstrap.main.
  induction companies as [|n companies IH] using rev_ind; [done|].
  rewrite foldl_app. simpl. rewrite process_company_result.
  destruct (decide (name = n)) as [->|Hne].
  - rewrite (bool_decide_eq_true_2 (n ∈ companies ++ [n])) by (apply elem_of_app; right; left).
    destruct (company_result _ _ _ _ n) as [r|] eqn:Hr; [by rewrite lookup_insert_eq|].
    rewrite IH. by case_bool_decide.
  - assert (bool_decide (name ∈ companies ++ [n]) = bool_decide (name ∈ companies)) as ->.
    { apply bool_decide_ext. rewrite elem_of_app, elem_of_cons, elem_of_nil. tauto. }
    destruct (company_result _ _ _ _ n); [by rewrite lookup_insert_ne|done].
Qed.

(** X17. The data written by the bootstrap [main] has a record for a name
    exactly when the name is in the companies file, [get_cik] returns for
    it, the facts request for that CIK succeeds and [extract_facts]
    returns; the record holds that CIK and those facts.  A company that
    fails is left out and does not affect the others. *)
Theorem bootstrap_main_records scorer today_year companyfacts companies
    (mapping : registry) name cik financials :
  Bootstrap.main scorer today_year companyfacts companies mapping !! name =
    Some {| Bootstrap.data_cik := cik; Bootstrap.data_financials := financials |} <->
  name ∈ companies /\
  Bootstrap.get_cik scorer name mapping = Returns cik /\
  exists facts, companyfacts cik = Some facts /\
                Bootstrap.extract_facts today_year facts = Returns financials.
Proof.
  rewrite bootstrap_main_result. unfold company_result. split.
  - case_bool_decide as Hin; [|done].
    destruct (Bootstrap.get_cik _ _ _) as [c|]; [|done].
    destruct (companyfacts c) as [facts|] eqn:Hf; [|done].
    destruct (Bootstrap.extract_facts _ _) as [fin|] eqn:He; [|done].
    intros [= <- <-]. eauto.
  - intros (Hin & -> & facts & -> & ->). by rewrite bool_decide_eq_true_2.
Qed.
